(** * A calendar integration layer: adapter, HTTP surface, chat dispatcher
      and tool-invocation server

    The development embeds three programs of the repository:
    - the full server (adapter functions [listEvents], [createEvent],
      [updateEvent], [deleteEvent], the JSON endpoints and the chat endpoint),
    - the earlier chat server (same adapter without [deleteEvent], chat reply
      rendered with [JSON.stringify]), in [Module Legacy],
    - [src/index.ts], the server that registers the [listEvents] tool, in
      [Module Index].

    The calendar service, the language model, the identity provider and the
    JavaScript [Date] built-ins are outside the repository.  They are the
    fields of the class [Externals]; what a theorem needs from them is stated
    as a named law and taken as a hypothesis.  [Module Stub] gives an
    in-memory implementation whose list keeps the events that start at or
    after [timeMin]; [Module EndBound] is the same calendar with the list
    keeping the events that end after [timeMin], which is the law. *)

From Stdlib Require Import String Ascii DecimalString.
From Stdlib Require Import List ZArith NArith Bool Lia.
From Stdlib Require Import Sorting.Sorted.
Import ListNotations.

Local Open Scope Z_scope.

(** ** JavaScript values *)

Module Js.

(** A JavaScript string is a sequence of UTF-16 code units. *)
Definition jsstring := list N.

(** An ASCII literal as a JavaScript string. *)
Definition lit (s : string) : jsstring :=
  map N_of_ascii (list_ascii_of_string s).

Definition jsstring_eqb (a b : jsstring) : bool :=
  if list_eq_dec N.eq_dec a b then true else false.

(** WhiteSpace and LineTerminator code points, the ones
    [String.prototype.trim] strips. *)
Definition is_whitespace (c : N) : bool :=
  existsb (N.eqb c)
    [9; 10; 11; 12; 13; 32; 160; 5760; 8232; 8233; 8239; 8287; 12288; 65279]%N
  || ((8192 <=? c) && (c <=? 8202))%N.

Fixpoint trimStart (s : jsstring) : jsstring :=
  match s with
  | c :: s' => if is_whitespace c then trimStart s' else s
  | [] => []
  end.

Definition trimEnd (s : jsstring) : jsstring := rev (trimStart (rev s)).

Definition trim (s : jsstring) : jsstring := trimEnd (trimStart s).

(** The values a JSON body field or an optional argument can hold.
    Numbers are restricted to integers; [VObject] stands for any array or
    object. *)
Inductive value :=
| VUndefined
| VNull
| VBool (b : bool)
| VNum (n : Z)
| VStr (s : jsstring)
| VObject.

(** ToBoolean. *)
Definition truthy (v : value) : bool :=
  match v with
  | VUndefined | VNull => false
  | VBool b => b
  | VNum n => negb (n =? 0)
  | VStr s => match s with [] => false | _ => true end
  | VObject => true
  end.

(** [a || b]. *)
Definition or_else (a b : value) : value := if truthy a then a else b.

(** Truthiness of an optional string: [undefined] and [""] are falsy. *)
Definition nonempty (s : option jsstring) : bool :=
  match s with
  | Some (_ :: _) => true
  | _ => false
  end.

(** A default parameter [x = d]: the default applies to [undefined] only. *)
Definition default_arg (x d : value) : value :=
  match x with VUndefined => d | _ => x end.

(** An optional string inside a template literal. *)
Definition interpolate (s : option jsstring) : jsstring :=
  match s with Some s => s | None => lit "undefined" end.

End Js.
Import Js.

(** ** Data exchanged with the calendar service *)

(** A timestamp as it travels: its text, and the instant the text denotes
    (milliseconds since the epoch).  The program only moves the text around;
    the laws of the calendar service speak about the instant. *)
Record Timestamp := { text : jsstring; instant : Z }.

(** [Schema$EventDateTime]: a timed event has [dateTime], an all-day event
    has [date]. *)
Record EventDateTime := {
  dateTime : option Timestamp;
  date : option Timestamp
}.

(** [Schema$Event], the fields the program reads or writes. *)
Record RawEvent := {
  ev_id : option jsstring;
  ev_summary : option jsstring;
  ev_start : option EventDateTime;
  ev_end : option EventDateTime;
  ev_htmlLink : option jsstring;
  ev_recurrence : list jsstring
}.

(** The [requestBody] of [events.insert] and [events.patch].  A field that is
    [undefined] is left out of the JSON sent. *)
Record EventBody := {
  b_summary : option jsstring;
  b_start : option EventDateTime;
  b_end : option EventDateTime
}.

Record ListRequest := {
  lr_calendarId : jsstring;
  lr_timeMin : Timestamp;
  lr_maxResults : value;
  lr_singleEvents : bool;
  lr_orderBy : jsstring
}.

Record InsertRequest := { ir_calendarId : jsstring; ir_requestBody : EventBody }.

Record PatchRequest := {
  pr_calendarId : jsstring;
  pr_eventId : option jsstring;
  pr_requestBody : EventBody
}.

Record DeleteRequest := { dr_calendarId : jsstring; dr_eventId : jsstring }.

(** The OAuth credential. *)
Record Tokens := { access_token : jsstring; refresh_token : option jsstring }.

(** A chat-completion request: model, system instruction, user content. *)
Record CompletionRequest := {
  cr_model : jsstring;
  cr_system : jsstring;
  cr_user : option jsstring
}.

(** What the program returns for a listed event. *)
Record EventSummary := {
  id : option jsstring;
  summary : option jsstring;
  start : option Timestamp
}.

(** What [createEvent] and [updateEvent] return. *)
Record Written := {
  success : bool;
  w_summary : option jsstring;
  link : option jsstring
}.

(** What [deleteEvent] returns. *)
Record Deleted := { d_success : bool; message : jsstring }.

(** ** The world outside the repository *)

Class Externals := {
  (** remote calendar: its state and the four calls the adapter makes; a
      call is rejected ([inl reason]) or fulfilled *)
  cal : Type;
  events_list :
    Tokens -> ListRequest -> cal -> (jsstring + option (list RawEvent)) * cal;
  events_insert : Tokens -> InsertRequest -> cal -> (jsstring + RawEvent) * cal;
  events_patch : Tokens -> PatchRequest -> cal -> (jsstring + RawEvent) * cal;
  events_delete : Tokens -> DeleteRequest -> cal -> (jsstring + unit) * cal;
  (** the event the calendar holds under an identifier *)
  stored : cal -> jsstring -> option RawEvent;
  (** language model: the content of the first choice, when there is one *)
  llm : Type;
  completions_create :
    CompletionRequest -> llm -> (jsstring + option jsstring) * llm;
  (** identity provider: exchange of an authorization code *)
  idp : Type;
  getToken : option jsstring -> idp -> (jsstring + Tokens) * idp;
  (** [new Date(s)]: [None] is an invalid date *)
  Date_parse : jsstring -> option Z;
  (** the text of [Date.prototype.toISOString] *)
  iso_text : Z -> jsstring;
  (** [JSON.stringify(events, null, 2)] *)
  JSON_stringify : list EventSummary -> jsstring
}.

(** Invocations of the clients of the external services: a method of the
    calendar client, the completion method of the language-model client, the
    token method of the OAuth client, the opening of the browser.  What a
    client does with an invocation (send it, or refuse it for a parameter
    that is missing) is the client's own and belongs to [Externals]. *)
Inductive call :=
| CalList (auth : Tokens) (r : ListRequest)
| CalInsert (auth : Tokens) (r : InsertRequest)
| CalPatch (auth : Tokens) (r : PatchRequest)
| CalDelete (auth : Tokens) (r : DeleteRequest)
| LlmComplete (r : CompletionRequest)
| TokenExchange (code : option jsstring)
| OpenBrowser (scope : jsstring).

Definition is_calendar_call (c : call) : bool :=
  match c with
  | CalList _ _ | CalInsert _ _ | CalPatch _ _ | CalDelete _ _ => true
  | _ => false
  end.

(** What a [throw] or a rejected promise carries. *)
Inductive exn :=
| Error (msg : jsstring)
| RangeError
| Rejected (reason : jsstring).

(** The error kinds of the design; [InvalidDate] is the one it does not name. *)
Inductive ErrorKind := Unauthenticated | ExternalServiceFailure | InvalidDate.

Definition Not_authenticated : jsstring := lit "Not authenticated. Visit /auth".

Definition unauthenticated : exn := Error Not_authenticated.

Definition kind_of (e : exn) : ErrorKind :=
  match e with
  | Error _ => Unauthenticated
  | RangeError => InvalidDate
  | Rejected _ => ExternalServiceFailure
  end.

Section World.
Context {E : Externals}.

(** The process state ([tokens], the credentials held by [oauth2Client]),
    the clock, the state of the three external services, and the calls
    made so far, latest first. *)
Record World := {
  tokens : option Tokens;
  credentials : option Tokens;
  clock : Z;
  remote : cal;
  model : llm;
  provider : idp;
  trace : list call
}.

(** Computations that read and write the world and may throw. *)
Definition M (A : Type) : Type := World -> (exn + A) * World.

Definition ret {A} (a : A) : M A := fun w => (inr a, w).

Definition bind {A B} (m : M A) (k : A -> M B) : M B :=
  fun w =>
    match m w with
    | (inl e, w') => (inl e, w')
    | (inr a, w') => k a w'
    end.

Definition throw {A} (e : exn) : M A := fun w => (inl e, w).

(** [try { m } catch (err) { h }] where [h] ignores [err]. *)
Definition try_catch {A} (m : M A) (h : A) : World -> A * World :=
  fun w =>
    match m w with
    | (inl _, w') => (h, w')
    | (inr a, w') => (a, w')
    end.

End World.

Declare Scope m_scope.
Delimit Scope m_scope with m.
Notation "x <- m ;; k" := (bind m (fun x => k))
  (at level 61, m at next level, right associativity) : m_scope.
Notation "m ;;; k" := (bind m (fun _ => k))
  (at level 61, right associativity) : m_scope.

(** ** The server: adapter, JSON endpoints, chat endpoint *)

Section Server.
Context {E : Externals}.
Local Open Scope m_scope.

(** *** Primitive effects *)

Definition log (c : call) (w : World) : World :=
  {| tokens := tokens w; credentials := credentials w; clock := clock w;
     remote := remote w; model := model w; provider := provider w;
     trace := c :: trace w |}.

Definition set_remote (c : cal) (w : World) : World :=
  {| tokens := tokens w; credentials := credentials w; clock := clock w;
     remote := c; model := model w; provider := provider w;
     trace := trace w |}.

Definition set_model (l : llm) (w : World) : World :=
  {| tokens := tokens w; credentials := credentials w; clock := clock w;
     remote := remote w; model := l; provider := provider w;
     trace := trace w |}.

Definition set_provider (p : idp) (w : World) : World :=
  {| tokens := tokens w; credentials := credentials w; clock := clock w;
     remote := remote w; model := model w; provider := p;
     trace := trace w |}.

Definition set_tokens (t : option Tokens) (w : World) : World :=
  {| tokens := t; credentials := credentials w; clock := clock w;
     remote := remote w; model := model w; provider := provider w;
     trace := trace w |}.

(** [oauth2Client.setCredentials(t)] *)
Definition setCredentials (t : Tokens) : M unit :=
  fun w =>
    (inr tt,
     {| tokens := tokens w; credentials := Some t; clock := clock w;
        remote := remote w; model := model w; provider := provider w;
        trace := trace w |}).

(** The world once [oauth2Client] holds [t]. *)
Definition holding (t : Tokens) (w : World) : World := snd (setCredentials t w).

(** [if (!tokens) throw new Error("Not authenticated. Visit /auth")] *)
Definition require_tokens : M Tokens :=
  fun w =>
    match tokens w with
    | None => throw unauthenticated w
    | Some t => ret t w
    end.

(** [new Date()] *)
Definition new_Date : M Z := fun w => (inr (clock w), w).

Definition toISOString (t : Z) : Timestamp :=
  {| text := iso_text t; instant := t |}.

(** [new Date(s)]; [new Date(undefined)] is an invalid date. *)
Definition new_Date_of (s : option jsstring) : option Z :=
  match s with
  | Some s => Date_parse s
  | None => None
  end.

(** [new Date(s).toISOString()]; an invalid date throws a RangeError. *)
Definition Date_toISOString (s : option jsstring) : M Timestamp :=
  match new_Date_of s with
  | Some t => ret (toISOString t)
  | None => throw RangeError
  end.

Definition No_access : jsstring :=
  lit "No access, refresh token, API key or refresh handler callback is set.".

(** An invocation of a method of the calendar client: it is made with the
    credentials the OAuth client holds, recorded in the trace, and a
    rejection (by the service, or by the client before anything is sent) is
    thrown. *)
Definition calendar_call {Req Res}
    (mk : Tokens -> Req -> call)
    (f : Tokens -> Req -> cal -> (jsstring + Res) * cal) (r : Req) : M Res :=
  fun w =>
    match credentials w with
    | None => (inl (Rejected No_access), w)
    | Some a =>
        let '(res, c) := f a r (remote w) in
        (match res with inl reason => inl (Rejected reason) | inr x => inr x end,
         set_remote c (log (mk a r) w))
    end.

Definition calendar_events_list := calendar_call CalList events_list.
Definition calendar_events_insert := calendar_call CalInsert events_insert.
Definition calendar_events_patch := calendar_call CalPatch events_patch.
Definition calendar_events_delete := calendar_call CalDelete events_delete.

(** [openai.chat.completions.create], then [.choices[0]?.message?.content] *)
Definition openai_chat_completions_create (r : CompletionRequest)
    : M (option jsstring) :=
  fun w =>
    let '(res, l) := completions_create r (model w) in
    (match res with inl reason => inl (Rejected reason) | inr x => inr x end,
     set_model l (log (LlmComplete r) w)).

(** *** Helper functions (the adapter) *)

Definition primary : jsstring := lit "primary".

(** [ev.start?.dateTime || ev.start?.date] *)
Definition start_of (ev : RawEvent) : option Timestamp :=
  match ev_start ev with
  | None => None
  | Some s =>
      match dateTime s with
      | Some t => match text t with [] => date s | _ => Some t end
      | None => date s
      end
  end.

Definition summarize (ev : RawEvent) : EventSummary :=
  {| id := ev_id ev; summary := ev_summary ev; start := start_of ev |}.

Definition list_request (now : Z) (maxResults : value) : ListRequest :=
  {| lr_calendarId := primary;
     lr_timeMin := toISOString now;
     lr_maxResults := maxResults;
     lr_singleEvents := true;
     lr_orderBy := lit "startTime" |}.

(** [response.data.items || []] *)
Definition items_or_empty (items : option (list RawEvent)) : list RawEvent :=
  match items with Some l => l | None => [] end.

Definition listEvents (maxResults : value) : M (list EventSummary) :=
  let maxResults := default_arg maxResults (VNum 5) in
  t <- require_tokens ;;
  setCredentials t ;;;
  now <- new_Date ;;
  response <- calendar_events_list (list_request now maxResults) ;;
  ret (map summarize (items_or_empty response)).

Definition timed (t : Timestamp) : EventDateTime :=
  {| dateTime := Some t; date := None |}.

Definition written (ev : RawEvent) : Written :=
  {| success := true; w_summary := ev_summary ev; link := ev_htmlLink ev |}.

Definition createEvent (summary start end_ : option jsstring) : M Written :=
  t <- require_tokens ;;
  setCredentials t ;;;
  s <- Date_toISOString start ;;
  e <- Date_toISOString end_ ;;
  response <- calendar_events_insert
    {| ir_calendarId := primary;
       ir_requestBody :=
         {| b_summary := summary;
            b_start := Some (timed s);
            b_end := Some (timed e) |} |} ;;
  ret (written response).

(** The insert request [createEvent] sends once both dates are read. *)
Definition insert_request (summary : option jsstring) (s e : Z) : InsertRequest :=
  {| ir_calendarId := primary;
     ir_requestBody :=
       {| b_summary := summary;
          b_start := Some (timed (toISOString s));
          b_end := Some (timed (toISOString e)) |} |}.

(** [x ? { dateTime: new Date(x).toISOString() } : undefined] *)
Definition optional_time (x : option jsstring) : M (option EventDateTime) :=
  if nonempty x then t <- Date_toISOString x ;; ret (Some (timed t))
  else ret None.

Definition updateEvent (eventId summary start end_ : option jsstring)
    : M Written :=
  t <- require_tokens ;;
  setCredentials t ;;;
  s <- optional_time start ;;
  e <- optional_time end_ ;;
  response <- calendar_events_patch
    {| pr_calendarId := primary;
       pr_eventId := eventId;
       pr_requestBody :=
         {| b_summary := summary; b_start := s; b_end := e |} |} ;;
  ret (written response).

(** The body field [updateEvent] sends for an optional date, when the
    date is usable. *)
Definition patch_time (x : option jsstring) : option EventDateTime :=
  if nonempty x
  then option_map (fun t => timed (toISOString t)) (new_Date_of x)
  else None.

Definition patch_request (eventId summary start end_ : option jsstring)
    : PatchRequest :=
  {| pr_calendarId := primary;
     pr_eventId := eventId;
     pr_requestBody :=
       {| b_summary := summary;
          b_start := patch_time start;
          b_end := patch_time end_ |} |}.

(** An optional date is usable when it is left out, or a valid date. *)
Definition usable (x : option jsstring) : bool :=
  if nonempty x
  then match new_Date_of x with Some _ => true | None => false end
  else true.

Definition Event_deleted_successfully : jsstring :=
  lit "Event deleted successfully".

Definition deleteEvent (eventId : jsstring) : M Deleted :=
  t <- require_tokens ;;
  setCredentials t ;;;
  calendar_events_delete
    {| dr_calendarId := primary; dr_eventId := eventId |} ;;;
  ret {| d_success := true; message := Event_deleted_successfully |}.

(** *** HTTP surface *)

(** [req.body] when the request carried a JSON object: every field may be
    absent.  The handlers [api_*] below run on such a body; the routes
    [post_*] further down take the body that may be missing altogether. *)
Record Body := {
  body_maxResults : value;
  body_eventId : option jsstring;
  body_summary : option jsstring;
  body_start : option jsstring;
  body_end : option jsstring;
  body_message : option jsstring
}.

(** What [res.json] or [res.send] is given. *)
Inductive Payload :=
| Events (events : list EventSummary)
| RawEvents (events : option (list RawEvent))
| WrittenEvent (event : Written)
| DeletedEvent (result : Deleted)
| ReplyEvents (reply : list EventSummary)
| ReplyText (reply : jsstring)
| ErrorText (error : jsstring)
| Page (html : jsstring).

Record Response := { status : Z; payload : Payload }.

Definition json (p : Payload) : Response := {| status := 200; payload := p |}.

Definition failure (code : Z) (error : jsstring) : Response :=
  {| status := code; payload := ErrorText error |}.

Definition Handler := World -> Response * World.

Definition api_listEvents (body : Body) : Handler :=
  try_catch
    (events <- listEvents (or_else (body_maxResults body) (VNum 5)) ;;
     ret (json (Events events)))
    (failure 500 (lit "Failed to fetch events")).

Definition api_createEvent (body : Body) : Handler :=
  try_catch
    (event <- createEvent (body_summary body) (body_start body) (body_end body) ;;
     ret (json (WrittenEvent event)))
    (failure 500 (lit "Failed to create event")).

Definition api_updateEvent (body : Body) : Handler :=
  try_catch
    (event <- updateEvent (body_eventId body) (body_summary body)
                (body_start body) (body_end body) ;;
     ret (json (WrittenEvent event)))
    (failure 500 (lit "Failed to update event")).

Definition api_deleteEvent (body : Body) : Handler :=
  try_catch
    (match body_eventId body with
     | Some (c :: eventId) =>
         result <- deleteEvent (c :: eventId) ;;
         ret (json (DeletedEvent result))
     | _ => ret (failure 400 (lit "Missing eventId"))
     end)
    (failure 500 (lit "Failed to delete event")).

(** *** Chat endpoint *)

Definition gpt_4o_mini : jsstring := lit "gpt-4o-mini".

Definition classifier_instruction : jsstring :=
  lit "You are a calendar assistant. Classify the user's intent into one of: list_events, create_event, update_event, delete_event, or chat.".

Definition chatbot_instruction : jsstring :=
  lit "You are a helpful calendar chatbot.".

(** [intent === label] *)
Definition intent_is (intent : option jsstring) (label : string) : bool :=
  match intent with
  | Some i => jsstring_eqb i (lit label)
  | None => false
  end.

(** U+2705, then the text. *)
Definition Event_created : jsstring := 9989%N :: lit " Event created: ".

(** U+1F914 as a surrogate pair, then the text. *)
Definition No_response : jsstring := 55358%N :: 56596%N :: lit " No response".

Definition Use_Update : jsstring :=
  lit "Use the [Update] button on an event to modify it.".

Definition Use_Delete : jsstring :=
  lit "Use the [Delete] button on an event to remove it.".

(** The two messages of a request: a system instruction, the user's text. *)
Definition messages (instruction : jsstring) (message : option jsstring)
    : CompletionRequest :=
  {| cr_model := gpt_4o_mini; cr_system := instruction; cr_user := message |}.

(** The generic conversational path. *)
Definition fallback (message : option jsstring) : M Response :=
  reply <- openai_chat_completions_create
             (messages chatbot_instruction message) ;;
  ret (json (ReplyText (match reply with
                        | Some (c :: r) => c :: r
                        | _ => No_response
                        end))).

Definition create_placeholder : M Response :=
  event <- createEvent (Some (lit "New Event"))
             (Some (lit "2025-09-25T10:00:00"))
             (Some (lit "2025-09-25T11:00:00")) ;;
  ret (json (ReplyText (Event_created ++ interpolate (link event)))).

Definition classify (instruction : jsstring) (message : option jsstring)
    : M (option jsstring) :=
  content <- openai_chat_completions_create (messages instruction message) ;;
  ret (option_map trim content).

Definition dispatch (intent message : option jsstring) : M Response :=
  if intent_is intent "list_events" then
    events <- listEvents VUndefined ;; ret (json (ReplyEvents events))
  else if intent_is intent "create_event" then create_placeholder
  else if intent_is intent "update_event" then
    ret (json (ReplyText Use_Update))
  else if intent_is intent "delete_event" then
    ret (json (ReplyText Use_Delete))
  else fallback message.

Definition Chat_failed : Response := failure 500 (lit "Chat failed").

Definition api_chat (body : Body) : Handler :=
  let message := body_message body in
  try_catch
    (intent <- classify classifier_instruction message ;;
     dispatch intent message)
    Chat_failed.

(** *** OAuth flow *)

Definition calendar_scope : jsstring :=
  lit "https://www.googleapis.com/auth/calendar".

Definition auth : Handler :=
  fun w =>
    ({| status := 200;
        payload := Page (lit "OAuth flow started. Please check your browser.") |},
     log (OpenBrowser calendar_scope) w).

(** The page of the error handler of Express; its text depends on the
    environment (outside production it is the stack of the error). *)
Definition Internal_Server_Error : jsstring := lit "Internal Server Error".

(** What Express answers when a handler rejects and has sent nothing. *)
Definition unhandled : Response :=
  {| status := 500; payload := Page Internal_Server_Error |}.

(** The exchange of the code.  [getToken] is called whatever the code; its
    rejection is not caught by the handler, so Express answers for it. *)
Definition oauth2callback (code : option jsstring)
    : World -> option Response * World :=
  fun w =>
    let '(res, p) := getToken code (provider w) in
    let w1 := set_provider p (log (TokenExchange code) w) in
    match res with
    | inl _ => (Some unhandled, w1)
    | inr newTokens =>
        let '(_, w2) := setCredentials newTokens w1 in
        (Some {| status := 200;
                 payload := Page (9989%N :: lit " Authentication successful. You can close this tab.") |},
         set_tokens (Some newTokens) w2)
    end.

(** *** Routing *)

Inductive Request :=
| GET_auth
| GET_oauth2callback (code : option jsstring)
| POST_listEvents (body : Body)
| POST_createEvent (body : Body)
| POST_updateEvent (body : Body)
| POST_deleteEvent (body : Body)
| POST_chat (body : Body).

Definition sent (h : Handler) : World -> option Response * World :=
  fun w => let '(r, w') := h w in (Some r, w').

Definition app (req : Request) : World -> option Response * World :=
  match req with
  | GET_auth => sent auth
  | GET_oauth2callback code => oauth2callback code
  | POST_listEvents body => sent (api_listEvents body)
  | POST_createEvent body => sent (api_createEvent body)
  | POST_updateEvent body => sent (api_updateEvent body)
  | POST_deleteEvent body => sent (api_deleteEvent body)
  | POST_chat body => sent (api_chat body)
  end.

(** The world after a sequence of requests, served one after the other. *)
Fixpoint serve (reqs : list Request) (w : World) : World :=
  match reqs with
  | [] => w
  | req :: reqs' => serve reqs' (snd (app req w))
  end.

(** *** A request without a parsed body

    [express.json()] leaves [req.body] undefined when the request carries no
    JSON body.  Each JSON endpoint reads a field of [req.body] inside its
    [try], so the TypeError is caught like any other failure and nothing
    else runs; the chat endpoint reads it before its [try]. *)






End Server.

(** ** The earlier chat server

    Its helper functions [listEvents], [createEvent] and [updateEvent] and
    its three JSON endpoints read as above; it has no [deleteEvent].  The
    chat endpoint differs. *)

Module Legacy.
Section Legacy.
Context {E : Externals}.
Local Open Scope m_scope.

Definition classifier_instruction : jsstring :=
  lit "You are a calendar assistant. Classify the user's intent into one of: list_events, create_event, update_event. Chat with the user about events and respond with the appropriate intent.".

Definition dispatch (intent message : option jsstring) : M Response :=
  if intent_is intent "list_events" then
    events <- listEvents VUndefined ;;
    ret (json (ReplyText (JSON_stringify events)))
  else if intent_is intent "create_event" then create_placeholder
  else if intent_is intent "update_event" then
    ret (json (ReplyText Use_Update))
  else fallback message.

Definition api_chat (body : Body) : Handler :=
  let message := body_message body in
  try_catch
    (intent <- classify classifier_instruction message ;;
     dispatch intent message)
    Chat_failed.

End Legacy.
End Legacy.

(** ** [src/index.ts]: the listing endpoint and the tool *)

Module Index.
Section Index.
Context {E : Externals}.
Local Open Scope m_scope.

Definition Visit_auth : jsstring :=
  lit "Not authenticated. Visit http://localhost:4153/auth".

(** [error instanceof Error ? error.message : "Unknown error"]; everything
    thrown here is an [Error]. *)
Definition error_message (e : exn) : jsstring :=
  match e with
  | Error msg => msg
  | RangeError => lit "Invalid time value"
  | Rejected reason => reason
  end.

(** [calendar.events.list] as both callers of this file write it. *)
Definition list_upcoming (t : Tokens) (maxResults : value)
    : M (option (list RawEvent)) :=
  setCredentials t ;;;
  now <- new_Date ;;
  calendar_events_list (list_request now maxResults).

(** [app.get("/api/listEvents")] *)
Definition api_listEvents : Handler :=
  fun w =>
    match tokens w with
    | None => (failure 401 Visit_auth, w)
    | Some t =>
        match list_upcoming t (VNum 5) w with
        | (inl e, w') => (failure 500 (error_message e), w')
        | (inr items, w') => (json (RawEvents items), w')
        end
    end.

(** *** The tool *)

(** A tool result: the text of its single content item, and [isError]. *)
Record ToolResult := { content_text : jsstring; isError : bool }.

(** The zod schemas the file uses. *)
Inductive Schema :=
| z_number_optional_default (d : Z).

(** Parsing an input field: the default replaces [undefined], a number
    passes, anything else is refused. *)
Definition parse (s : Schema) (v : value) : option value :=
  match s, v with
  | z_number_optional_default d, VUndefined => Some (VNum d)
  | z_number_optional_default _, VNum n => Some (VNum n)
  | _, _ => None
  end.

Fixpoint join (sep : jsstring) (l : list jsstring) : jsstring :=
  match l with
  | [] => []
  | [x] => x
  | x :: l' => x ++ sep ++ join sep l'
  end.

Definition event_line (event : RawEvent) : jsstring :=
  interpolate (ev_summary event) ++ lit " - "
    ++ interpolate (option_map text (start_of event)).

Definition listEvents_handler (maxResults : value) : World -> ToolResult * World :=
  fun w =>
    match tokens w with
    | None => ({| content_text := Visit_auth; isError := true |}, w)
    | Some t =>
        match list_upcoming t (or_else maxResults (VNum 5)) w with
        | (inl e, w') =>
            ({| content_text := lit "Error fetching events: " ++ error_message e;
                isError := true |}, w')
        | (inr items, w') =>
            let events := items_or_empty items in
            ({| content_text :=
                  match events with
                  | [] => lit "No upcoming events found."
                  | _ => join [10%N] (map event_line events)
                  end;
                isError := false |}, w')
        end
    end.

Record Tool := {
  tool_name : jsstring;
  title : jsstring;
  description : jsstring;
  (** the input shape: its only field and the schema of that field *)
  inputSchema : jsstring * Schema;
  handler : value -> World -> ToolResult * World
}.

Record McpServer := {
  server_name : jsstring;
  version : jsstring;
  registeredTools : list Tool
}.

Definition new_McpServer (name version : jsstring) : McpServer :=
  {| server_name := name; version := version; registeredTools := [] |}.

Definition registerTool (t : Tool) (s : McpServer) : McpServer :=
  {| server_name := server_name s; version := version s;
     registeredTools := registeredTools s ++ [t] |}.

Definition listEvents_tool : Tool :=
  {| tool_name := lit "listEvents";
     title := lit "List Calendar Events";
     description := lit "List upcoming Google Calendar events";
     inputSchema := (lit "maxResults", z_number_optional_default 5);
     handler := listEvents_handler |}.

(** The server as the file leaves it before [startMcpServer] connects it. *)
Definition mcp : McpServer :=
  registerTool listEvents_tool
    (new_McpServer (lit "Google Calendar MCP") (lit "1.0.0")).

(** A [tools/call] request arriving on the stdio transport: the tool is
    looked up by name, the argument is parsed against its schema, and its
    handler runs.  [None] is a protocol error (unknown tool, refused
    input).  [maxResults] is the value of the input's [maxResults] field,
    [VUndefined] when the field is absent. *)
Definition callTool (s : McpServer) (name : jsstring) (maxResults : value)
    : World -> option ToolResult * World :=
  fun w =>
    match find (fun t => jsstring_eqb (tool_name t) name) (registeredTools s) with
    | None => (None, w)
    | Some t =>
        match parse (snd (inputSchema t)) maxResults with
        | None => (None, w)
        | Some v => let '(r, w') := handler t v w in (Some r, w')
        end
    end.

End Index.
End Index.

(** The server of the full program and of the earlier chat server: both
    construct it and connect it, and register nothing on it. *)
Definition mcp_without_tools {E : Externals} : Index.McpServer :=
  Index.new_McpServer (lit "Google Calendar MCP") (lit "1.0.0").

(** ** An in-memory calendar, a scripted language model, a permissive
    identity provider *)

(** Order of start times; an event without a start comes first. *)
Definition time_le (a b : option Timestamp) : Prop :=
  match a, b with
  | None, _ => True
  | Some _, None => False
  | Some x, Some y => instant x <= instant y
  end.

(** The end of an event as the calendar holds it: [end.dateTime], or
    [end.date] for an all-day event. *)
Definition end_of (ev : RawEvent) : option Timestamp :=
  match ev_end ev with
  | None => None
  | Some e =>
      match dateTime e with
      | Some t => Some t
      | None => date e
      end
  end.

Module Stub.

Record Calendar := { next : N; events : list RawEvent }.

Definition has_id (i : jsstring) (ev : RawEvent) : bool :=
  match ev_id ev with
  | Some j => jsstring_eqb i j
  | None => false
  end.

Definition lookup (c : Calendar) (i : jsstring) : option RawEvent :=
  find (has_id i) (events c).

Definition time_leb (a b : option Timestamp) : bool :=
  match a, b with
  | None, _ => true
  | Some _, None => false
  | Some x, Some y => instant x <=? instant y
  end.

Fixpoint insert_by_start (ev : RawEvent) (l : list RawEvent) : list RawEvent :=
  match l with
  | [] => [ev]
  | x :: l' =>
      if time_leb (start_of ev) (start_of x) then ev :: l
      else x :: insert_by_start ev l'
  end.

Definition by_start (l : list RawEvent) : list RawEvent :=
  fold_right insert_by_start [] l.

Definition upcoming (floor : Timestamp) (ev : RawEvent) : bool :=
  match start_of ev with
  | Some t => instant floor <=? instant t
  | None => false
  end.

Definition single (ev : RawEvent) : bool :=
  match ev_recurrence ev with [] => true | _ => false end.

(** The page size: 250 unless given; a negative or non-numeric value is
    refused. *)
Definition page_size (v : value) : option nat :=
  match v with
  | VUndefined => Some 250%nat
  | VNum n => if 0 <=? n then Some (Z.to_nat n) else None
  | _ => None
  end.

Definition list_events (_ : Tokens) (r : ListRequest) (c : Calendar)
    : (jsstring + option (list RawEvent)) * Calendar :=
  match page_size (lr_maxResults r) with
  | None => (inl (lit "Invalid value for maxResults"), c)
  | Some n =>
      let l := filter (upcoming (lr_timeMin r)) (events c) in
      let l := if lr_singleEvents r then filter single l else l in
      let l := if jsstring_eqb (lr_orderBy r) (lit "startTime")
               then by_start l else l in
      (inr (Some (firstn n l)), c)
  end.

Definition insert_event (_ : Tokens) (r : InsertRequest) (c : Calendar)
    : (jsstring + RawEvent) * Calendar :=
  let i := lit "evt" ++ [next c] in
  let ev :=
    {| ev_id := Some i;
       ev_summary := b_summary (ir_requestBody r);
       ev_start := b_start (ir_requestBody r);
       ev_end := b_end (ir_requestBody r);
       ev_htmlLink := Some (lit "https://calendar.example/event?eid=" ++ i);
       ev_recurrence := [] |} in
  (inr ev, {| next := N.succ (next c); events := events c ++ [ev] |}).

Definition or_old {A} (new old : option A) : option A :=
  match new with Some _ => new | None => old end.

Definition apply (b : EventBody) (ev : RawEvent) : RawEvent :=
  {| ev_id := ev_id ev;
     ev_summary := or_old (b_summary b) (ev_summary ev);
     ev_start := or_old (b_start b) (ev_start ev);
     ev_end := or_old (b_end b) (ev_end ev);
     ev_htmlLink := ev_htmlLink ev;
     ev_recurrence := ev_recurrence ev |}.

Definition patch_event (_ : Tokens) (r : PatchRequest) (c : Calendar)
    : (jsstring + RawEvent) * Calendar :=
  match pr_eventId r with
  | None => (inl (lit "Missing required parameters: eventId"), c)
  | Some i =>
      match lookup c i with
      | None => (inl (lit "Not Found"), c)
      | Some ev =>
          (inr (apply (pr_requestBody r) ev),
           {| next := next c;
              events :=
                map (fun x => if has_id i x then apply (pr_requestBody r) x
                              else x) (events c) |})
      end
  end.

Definition delete_event (_ : Tokens) (r : DeleteRequest) (c : Calendar)
    : (jsstring + unit) * Calendar :=
  match lookup c (dr_eventId r) with
  | None => (inl (lit "Not Found"), c)
  | Some _ =>
      (inr tt,
       {| next := next c;
          events := filter (fun x => negb (has_id (dr_eventId r) x)) (events c) |})
  end.

(** The language model answers from a script, one entry per request. *)
Definition Script := list (jsstring + option jsstring)%type.

Definition complete (_ : CompletionRequest) (l : Script)
    : (jsstring + option jsstring) * Script :=
  match l with
  | [] => (inl (lit "Connection error."), [])
  | x :: l' => (x, l')
  end.

Definition exchange (code : option jsstring) (_ : unit)
    : (jsstring + Tokens) * unit :=
  if nonempty code
  then (inr {| access_token := lit "ya29.stub"; refresh_token := None |}, tt)
  else (inl (lit "invalid_grant"), tt).

(** Two date-time strings read in UTC; anything else is an invalid date. *)
Definition parse_date (s : jsstring) : option Z :=
  if jsstring_eqb s (lit "2025-09-25T10:00:00") then Some 1758794400000
  else if jsstring_eqb s (lit "2025-09-25T11:00:00") then Some 1758798000000
  else None.

Definition decimal (t : Z) : jsstring :=
  lit (NilEmpty.string_of_int (Z.to_int t)).

Definition stringify (evs : list EventSummary) : jsstring :=
  concat (map (fun e => interpolate (summary e) ++ [10%N]) evs).

#[export] Instance externals : Externals :=
  {| cal := Calendar;
     events_list := list_events;
     events_insert := insert_event;
     events_patch := patch_event;
     events_delete := delete_event;
     stored := lookup;
     llm := Script;
     completions_create := complete;
     idp := unit;
     getToken := exchange;
     Date_parse := parse_date;
     iso_text := decimal;
     JSON_stringify := stringify |}.

Definition credential : Tokens :=
  {| access_token := lit "ya29.stub"; refresh_token := None |}.

Definition at_ (t : Z) : option EventDateTime :=
  Some {| dateTime := Some {| text := decimal t; instant := t |}; date := None |}.

Definition event (i title : string) (t : Z) (rules : list jsstring) : RawEvent :=
  {| ev_id := Some (lit i); ev_summary := Some (lit title);
     ev_start := at_ t; ev_end := at_ (t + 3600000);
     ev_htmlLink := None; ev_recurrence := rules |}.

(** A calendar with a past event, three coming ones out of order, and the
    master of a recurring series. *)
Definition calendar : Calendar :=
  {| next := 0%N;
     events :=
       [ event "a" "Standup" 5000 [];
         event "b" "Review" 3000 [];
         event "c" "Retro" 500 [];
         event "d" "Lunch" 4000 [];
         event "e" "Weekly" 6000 [lit "RRULE:FREQ=WEEKLY"] ] |}.

(** The process as it starts: no credential, nothing called. *)
Definition boot (script : Script) : World :=
  {| tokens := None; credentials := None; clock := 1000;
     remote := calendar; model := script; provider := tt; trace := [] |}.

(** The process after a successful exchange. *)
Definition signed_in (script : Script) : World :=
  {| tokens := Some credential; credentials := Some credential; clock := 1000;
     remote := calendar; model := script; provider := tt; trace := [] |}.

Definition body (maxResults : value) (eventId summary start end_ message : option jsstring)
    : Body :=
  {| body_maxResults := maxResults; body_eventId := eventId;
     body_summary := summary; body_start := start; body_end := end_;
     body_message := message |}.

Definition empty_body : Body := body VUndefined None None None None None.

End Stub.

(** ** The in-memory calendar with [timeMin] as a bound on the end *)

Module EndBound.

Definition unended (floor : Timestamp) (ev : RawEvent) : bool :=
  match end_of ev with
  | Some t => instant floor <? instant t
  | None => false
  end.

Definition list_events (_ : Tokens) (r : ListRequest) (c : Stub.Calendar)
    : (jsstring + option (list RawEvent)) * Stub.Calendar :=
  match Stub.page_size (lr_maxResults r) with
  | None => (inl (lit "Invalid value for maxResults"), c)
  | Some n =>
      let l := filter (unended (lr_timeMin r)) (Stub.events c) in
      let l := if lr_singleEvents r then filter Stub.single l else l in
      let l := if jsstring_eqb (lr_orderBy r) (lit "startTime")
               then Stub.by_start l else l in
      (inr (Some (firstn n l)), c)
  end.

#[export] Instance externals : Externals :=
  {| cal := Stub.Calendar;
     events_list := list_events;
     events_insert := Stub.insert_event;
     events_patch := Stub.patch_event;
     events_delete := Stub.delete_event;
     stored := Stub.lookup;
     llm := Stub.Script;
     completions_create := Stub.complete;
     idp := unit;
     getToken := Stub.exchange;
     Date_parse := Stub.parse_date;
     iso_text := Stub.decimal;
     JSON_stringify := Stub.stringify |}.

(** The process after a successful exchange, at 1000: the event "c" began
    at 500 and ends at 3600500. *)
Definition signed_in : World :=
  {| tokens := Some Stub.credential; credentials := Some Stub.credential;
     clock := 1000; remote := Stub.calendar; model := []; provider := tt;
     trace := [] |}.

End EndBound.

(** ** What the external services are assumed to do

    Each law speaks about one call of the calendar service and the
    parameters of its request; none mentions the program. *)

Section Laws.
Context {E : Externals}.

(** The items of a fulfilled [events.list]; an absent [items] field is no
    item. *)
Definition listed (a : Tokens) (r : ListRequest) (c : cal)
    (items : list RawEvent) : Prop :=
  exists res c', events_list a r c = (inr res, c')
                 /\ items = items_or_empty res.

(** [maxResults]: no more items than asked for. *)
Definition list_honours_maxResults : Prop :=
  forall a r c items n,
    listed a r c items ->
    lr_maxResults r = VNum n ->
    Z.of_nat (length items) <= n.

(** [timeMin]: a lower bound, exclusive, on the end of an event; every item
    ends after it. *)
Definition list_honours_timeMin : Prop :=
  forall a r c items,
    listed a r c items ->
    Forall (fun ev => exists t, end_of ev = Some t
                                /\ instant (lr_timeMin r) < instant t) items.

(** [orderBy: "startTime"]: ascending start times. *)
Definition list_honours_orderBy : Prop :=
  forall a r c items,
    listed a r c items ->
    lr_orderBy r = lit "startTime" ->
    StronglySorted (fun x y => time_le (start_of x) (start_of y)) items.

(** [singleEvents: true]: instances, never the recurring event itself. *)
Definition list_honours_singleEvents : Prop :=
  forall a r c items,
    listed a r c items ->
    lr_singleEvents r = true ->
    Forall (fun ev => ev_recurrence ev = []) items.

(** A listed event is one the calendar holds. *)
Definition list_returns_stored : Prop :=
  forall a r c items ev i,
    listed a r c items ->
    In ev items -> ev_id ev = Some i -> stored c i <> None.

(** A fulfilled delete removes the event. *)
Definition delete_removes : Prop :=
  forall a r c c',
    events_delete a r c = (inr tt, c') -> stored c' (dr_eventId r) = None.

(** A delete of an identifier the calendar does not hold is rejected. *)
Definition delete_rejects_unknown : Prop :=
  forall a r c,
    stored c (dr_eventId r) = None ->
    exists reason, fst (events_delete a r c) = inl reason.

(** The calendar client refuses a patch without [eventId] before anything is
    sent: the invocation is rejected and the calendar is as before. *)
Definition patch_requires_eventId : Prop :=
  forall a r c,
    pr_eventId r = None ->
    exists reason, events_patch a r c = (inl reason, c).

(** The OAuth client refuses an exchange without a code before anything is
    sent: the invocation is rejected and the identity provider is as before. *)
Definition getToken_requires_code : Prop :=
  forall p, exists reason, getToken None p = (inl reason, p).

(** A patch keeps every event, and keeps the fields its body leaves out. *)
Definition patch_leaves_omitted : Prop :=
  forall a r c res c' i ev,
    events_patch a r c = (res, c') ->
    stored c i = Some ev ->
    exists ev',
      stored c' i = Some ev'
      /\ (b_summary (pr_requestBody r) = None -> ev_summary ev' = ev_summary ev)
      /\ (b_start (pr_requestBody r) = None -> ev_start ev' = ev_start ev)
      /\ (b_end (pr_requestBody r) = None -> ev_end ev' = ev_end ev).

(** *** Runs without a successful exchange *)

(** Every exchange of an authorization code attempted while [reqs] are
    served from [w] is rejected. *)
Fixpoint exchanges_rejected (reqs : list Request) (w : World) : Prop :=
  match reqs with
  | [] => True
  | req :: reqs' =>
      match req with
      | GET_oauth2callback code =>
          exists reason, fst (getToken code (provider w)) = inl reason
      | _ => True
      end
      /\ exchanges_rejected reqs' (snd (app req w))
  end.

(** The fixed vocabulary of intent labels. *)
Definition vocabulary : list jsstring :=
  [lit "list_events"; lit "create_event"; lit "update_event"; lit "delete_event"].

Definition in_vocabulary (intent : option jsstring) : bool :=
  match intent with
  | Some i => existsb (jsstring_eqb i) vocabulary
  | None => false
  end.

End Laws.

(** ** The OAuth callback of [src/index.ts] *)

Module IndexAuth.
Section IndexAuth.
Context {E : Externals}.

(** [`${error}`] for a rejected call: the name of the error, its message. *)
Definition String_of_error (reason : jsstring) : jsstring :=
lit "Error: " ++ reason.

(** [app.get("/oauth2callback")]: the code is checked first, and a rejected
    exchange is caught. *)
Definition oauth2callback (code : option jsstring) : Handler :=
fun w =>
  if nonempty code then
    let '(res, p) := getToken code (provider w) in
    let w1 := set_provider p (log (TokenExchange code) w) in
    match res with
    | inl reason =>
        ({| status := 500;
            payload := Page (lit "Authentication failed: "
                               ++ String_of_error reason) |}, w1)
    | inr newTokens =>
        let '(_, w2) := setCredentials newTokens w1 in
        ({| status := 200;
            payload := Page (lit "Authentication successful! You can close this tab.") |},
         set_tokens (Some newTokens) w2)
    end
  else
    ({| status := 400; payload := Page (lit "No authorization code received") |},
     w).

End IndexAuth.
End IndexAuth.

(** ** The chat page (the browser script)

    The chat window is the list of its message elements, oldest first.  An
    event handler that awaits a [fetch] is cut at the [fetch]: the part that
    runs at once, and the part that runs on the outcome. *)

Module Chatbot.

Inductive Sender := user | bot.

(** A message element: its text, the sender in its class name, and the
    event the Update and Create Event buttons are bound to, when it has
    buttons. *)
Record Message := {
  textContent : jsstring;
  sender : Sender;
  buttons : option jsstring
}.

Record Dom := { chatWindow : list Message; userInput : jsstring }.

Definition appendMessage (text : jsstring) (s : Sender) (withButtons : bool)
    (eventId : option jsstring) (p : Dom) : Dom :=
{| chatWindow :=
     chatWindow p
       ++ [ {| textContent := text; sender := s;
               buttons := if withButtons && nonempty eventId
                          then eventId else None |} ];
   userInput := userInput p |}.

(** How a [fetch] ends: a response whose body is [data], or a rejection. *)
Inductive Outcome :=
| Resolved (data : Payload)
| NetworkError.

(** [await res.json()]: a body sent with [res.send] is not JSON. *)
Definition res_json (data : Payload) : option Payload :=
match data with
| Page _ => None
| _ => Some data
end.

(** [data.reply] *)
Inductive Reply :=
| ReplyArray (events : list EventSummary)
| ReplyString (s : jsstring)
| ReplyUndefined.

Definition reply_of (data : Payload) : Reply :=
match data with
| ReplyEvents events => ReplyArray events
| ReplyText s => ReplyString s
| _ => ReplyUndefined
end.

(** [data.summary] *)
Definition summary_of (data : Payload) : option jsstring :=
match data with
| WrittenEvent event => w_summary event
| _ => None
end.

Definition body_of (eventId summary start end_ message : option jsstring) : Body :=
{| body_maxResults := VUndefined; body_eventId := eventId;
   body_summary := summary; body_start := start; body_end := end_;
   body_message := message |}.

Definition placeholder : jsstring := lit "...".

(** U+274C, then the text. *)
Definition Error_contacting_server : jsstring :=
10060%N :: lit " Error contacting server.".

Definition Failed_to_update : jsstring := 10060%N :: lit " Failed to update event.".

Definition Failed_to_create : jsstring := 10060%N :: lit " Failed to create event.".

Definition Event_updated : jsstring := 9989%N :: lit " Event updated: ".

Definition Created : jsstring := 9989%N :: lit " Created: ".

(** The submit handler up to its [fetch]: nothing for a blank input;
    otherwise the user's message and the "..." placeholder are appended, the
    input is cleared, and the chat request leaves. *)
Definition submit (p : Dom) : option (Request * Dom) :=
match trim (userInput p) with
| [] => None
| text =>
    let p1 := appendMessage text user false None p in
    let p2 := {| chatWindow := chatWindow p1; userInput := [] |} in
    Some (POST_chat (body_of None None None None (Some text)),
          appendMessage placeholder bot false None p2)
end.

(** [`${ev.summary || "(no title)"} — ${ev.start}`] *)
Definition event_text (ev : EventSummary) : jsstring :=
(if nonempty (summary ev) then interpolate (summary ev) else lit "(no title)")
  ++ [32%N; 8212%N; 32%N]
  ++ interpolate (option_map text (start ev)).

Definition show_events (events : list EventSummary) (p : Dom) : Dom :=
fold_left (fun q ev => appendMessage (event_text ev) bot true (id ev) q) events p.

(** The submit handler from the outcome of its [fetch] on.  A rejection, a
    body that is not JSON, and a window without a last child to remove all
    end in the [catch]. *)
Definition answered (o : Outcome) (p : Dom) : Dom :=
let failed := appendMessage Error_contacting_server bot false None p in
match o with
| NetworkError => failed
| Resolved body =>
    match res_json body, chatWindow p with
    | None, _ => failed
    | Some _, [] => failed
    | Some data, _ :: _ =>
        let p1 := {| chatWindow := removelast (chatWindow p);
                     userInput := userInput p |} in
        match reply_of data with
        | ReplyArray events => show_events events p1
        | ReplyString (c :: s) => appendMessage (c :: s) bot false None p1
        | _ => appendMessage No_response bot false None p1
        end
    end
end.

(** The Update button of a message bound to [eventId]; [answer] is what
    [prompt] returned, [None] when it was dismissed. *)
Definition update_click (eventId : jsstring) (answer : option jsstring)
    : option Request :=
if nonempty answer
then Some (POST_updateEvent (body_of (Some eventId) answer None None None))
else None.

Definition updated (o : Outcome) (p : Dom) : Dom :=
match o with
| Resolved body =>
    match res_json body with
    | Some data =>
        appendMessage (Event_updated ++ interpolate (summary_of data))
          bot false None p
    | None => appendMessage Failed_to_update bot false None p
    end
| NetworkError => appendMessage Failed_to_update bot false None p
end.

(** The Create Event button; the three answers of [prompt]. *)
Definition create_click (summary start end_ : option jsstring) : option Request :=
if nonempty summary && nonempty start && nonempty end_
then Some (POST_createEvent (body_of None summary start end_ None))
else None.

Definition created (o : Outcome) (p : Dom) : Dom :=
match o with
| Resolved body =>
    match res_json body with
    | Some data =>
        appendMessage (Created ++ interpolate (summary_of data)) bot false None p
    | None => appendMessage Failed_to_create bot false None p
    end
| NetworkError => appendMessage Failed_to_create bot false None p
end.

(** The page against a server: the request is served, and the response, when
    one is sent, is the outcome of the [fetch]. *)
Definition fetch {E : Externals} (req : Request) : World -> option Outcome * World :=
fun w =>
  let '(r, w') := app req w in
  (option_map (fun r => Resolved (payload r)) r, w').

End Chatbot.

(** ** Vocabulary of the properties *)

(** A string made of whitespace only. *)
Definition blank (s : jsstring) : bool := forallb is_whitespace s.

(** A string that does not begin with whitespace. *)
Definition starts_clean (s : jsstring) : bool :=
  match s with
  | [] => true
  | c :: _ => negb (is_whitespace c)
  end.

(** A string with no whitespace at either end. *)
Definition clean (s : jsstring) : bool := starts_clean s && starts_clean (rev s).

(** A message without buttons. *)
Definition say (s : Chatbot.Sender) (text : jsstring) : Chatbot.Message :=
  {| Chatbot.textContent := text; Chatbot.sender := s; Chatbot.buttons := None |}.

(** The message the page shows for a listed event: buttons bound to its
    identifier when it has one. *)
Definition event_message (ev : EventSummary) : Chatbot.Message :=
  {| Chatbot.textContent := Chatbot.event_text ev;
     Chatbot.sender := Chatbot.bot;
     Chatbot.buttons := if nonempty (id ev) then id ev else None |}.

Section Slot.
Context {E : Externals}.

(** A computation that leaves the credential slot and the OAuth client as
    they are. *)
Definition keeps {A} (m : M A) : Prop :=
  forall w, tokens (snd (m w)) = tokens w
            /\ credentials (snd (m w)) = credentials w.

(** From [w] to [w']: the slot is unchanged, and the OAuth client holds what
    the slot holds if it did before. *)
Definition slot_kept (w w' : World) : Prop :=
  tokens w' = tokens w
  /\ (credentials w = tokens w -> credentials w' = tokens w').

(** The calendar calls among the calls of a trace. *)
Definition calendar_calls (cs : list call) : list call :=
  filter is_calendar_call cs.

End Slot.

(** * Properties *)

(** ** Strings *)

Lemma jsstring_eqb_eq (a b : jsstring) : jsstring_eqb a b = true <-> a = b.
Proof.
  unfold jsstring_eqb. destruct (list_eq_dec N.eq_dec a b); split; congruence.
Qed.

Lemma jsstring_eqb_refl (a : jsstring) : jsstring_eqb a a = true.
Proof. now apply jsstring_eqb_eq. Qed.

Lemma intent_is_label (l : string) : intent_is (Some (lit l)) l = true.
Proof. apply jsstring_eqb_refl. Qed.

(** ** The adapter, call by call *)

Section Adapter.
Context {E : Externals}.

Lemma require_tokens_absent w :
  tokens w = None -> require_tokens w = (inl unauthenticated, w).
Proof. intros H. unfold require_tokens. now rewrite H. Qed.

Lemma listEvents_unauthenticated w v :
  tokens w = None -> listEvents v w = (inl unauthenticated, w).
Proof.
  intros H. unfold listEvents, bind. now rewrite (require_tokens_absent w H).
Qed.

Lemma createEvent_unauthenticated w s a b :
  tokens w = None -> createEvent s a b w = (inl unauthenticated, w).
Proof.
  intros H. unfold createEvent, bind. now rewrite (require_tokens_absent w H).
Qed.

Lemma updateEvent_unauthenticated w i s a b :
  tokens w = None -> updateEvent i s a b w = (inl unauthenticated, w).
Proof.
  intros H. unfold updateEvent, bind. now rewrite (require_tokens_absent w H).
Qed.

Lemma deleteEvent_unauthenticated w i :
  tokens w = None -> deleteEvent i w = (inl unauthenticated, w).
Proof.
  intros H. unfold deleteEvent, bind. now rewrite (require_tokens_absent w H).
Qed.

(** [listEvents] with a credential: one [events.list] call. *)
Lemma listEvents_authenticated w v t :
  tokens w = Some t ->
  listEvents v w =
    let r := list_request (clock w) (default_arg v (VNum 5)) in
    let w' := set_remote (snd (events_list t r (remote w)))
                (log (CalList t r) (holding t w)) in
    match fst (events_list t r (remote w)) with
    | inl reason => (inl (Rejected reason), w')
    | inr items => (inr (map summarize (items_or_empty items)), w')
    end.
Proof.
  intros H.
  unfold listEvents, bind, require_tokens, ret, new_Date, holding,
    calendar_events_list, calendar_call.
  rewrite H. simpl.
  destruct (events_list t _ (remote w)) as [[reason | items] c]; reflexivity.
Qed.

(** [deleteEvent] with a credential: one [events.delete] call. *)
Lemma deleteEvent_authenticated w i t :
  tokens w = Some t ->
  deleteEvent i w =
    let r := {| dr_calendarId := primary; dr_eventId := i |} in
    let w' := set_remote (snd (events_delete t r (remote w)))
                (log (CalDelete t r) (holding t w)) in
    match fst (events_delete t r (remote w)) with
    | inl reason => (inl (Rejected reason), w')
    | inr _ =>
        (inr {| d_success := true; message := Event_deleted_successfully |}, w')
    end.
Proof.
  intros H.
  unfold deleteEvent, bind, require_tokens, ret, holding,
    calendar_events_delete, calendar_call.
  rewrite H. simpl.
  destruct (events_delete t _ (remote w)) as [[reason | []] c]; reflexivity.
Qed.

End Adapter.

(** ** The chat endpoint and the routes, step by step *)

Section Routes.
Context {E : Externals}.

(** A completion request changes the language model and the trace only. *)
Lemma completion_effect r w :
  let w' := snd (openai_chat_completions_create r w) in
  tokens w' = tokens w /\ credentials w' = credentials w
  /\ clock w' = clock w /\ remote w' = remote w
  /\ trace w' = LlmComplete r :: trace w.
Proof.
  unfold openai_chat_completions_create.
  destruct (completions_create r (model w)) as [res l]. simpl. tauto.
Qed.

Lemma classify_effect instruction message w :
  let w' := snd (classify instruction message w) in
  tokens w' = tokens w /\ credentials w' = credentials w
  /\ clock w' = clock w /\ remote w' = remote w
  /\ trace w' = LlmComplete (messages instruction message) :: trace w.
Proof.
  pose proof (completion_effect (messages instruction message) w) as H.
  unfold classify, bind, ret.
  destruct (openai_chat_completions_create _ w) as [[e | content] w1]; exact H.
Qed.

Lemma api_chat_classified body w intent w1 :
  classify classifier_instruction (body_message body) w = (inr intent, w1) ->
  api_chat body w
  = try_catch (dispatch intent (body_message body)) Chat_failed w1.
Proof.
  intros H. unfold api_chat, try_catch, bind. now rewrite H.
Qed.

Lemma api_chat_unclassified body w e w1 :
  classify classifier_instruction (body_message body) w = (inl e, w1) ->
  api_chat body w = (Chat_failed, w1).
Proof.
  intros H. unfold api_chat, try_catch, bind. now rewrite H.
Qed.

Lemma fallback_effect message w :
  let w' := snd (fallback message w) in
  tokens w' = tokens w /\ credentials w' = credentials w
  /\ clock w' = clock w /\ remote w' = remote w
  /\ trace w' = LlmComplete (messages chatbot_instruction message)
                  :: trace w.
Proof.
  pose proof (completion_effect (messages chatbot_instruction message) w) as H.
  unfold fallback, bind, ret.
  destruct (openai_chat_completions_create _ w) as [[e | content] w1]; exact H.
Qed.

(** Without a credential, [dispatch] leaves [tokens] absent. *)
Lemma dispatch_keeps_absent intent message w :
  tokens w = None -> tokens (snd (dispatch intent message w)) = None.
Proof.
  intros H. unfold dispatch, create_placeholder, bind.
  destruct (intent_is intent "list_events").
  { now rewrite (listEvents_unauthenticated w VUndefined H). }
  destruct (intent_is intent "create_event").
  { now rewrite (createEvent_unauthenticated w _ _ _ H). }
  destruct (intent_is intent "update_event"); [exact H |].
  destruct (intent_is intent "delete_event"); [exact H |].
  destruct (fallback_effect message w) as (Ht & _). unfold bind in Ht.
  now rewrite Ht.
Qed.

Lemma api_chat_keeps_absent body w :
  tokens w = None -> tokens (snd (api_chat body w)) = None.
Proof.
  intros H.
  destruct (classify_effect classifier_instruction (body_message body) w)
    as (Ht & _).
  destruct (classify classifier_instruction (body_message body) w)
    as [[e | intent] w1] eqn:Hc; simpl in Ht.
  - rewrite (api_chat_unclassified body w e w1 Hc). simpl. congruence.
  - rewrite (api_chat_classified body w intent w1 Hc).
    assert (H1 : tokens w1 = None) by congruence.
    pose proof (dispatch_keeps_absent intent (body_message body) w1 H1) as Hd.
    unfold try_catch.
    destruct (dispatch intent (body_message body) w1) as [[e | r] w2];
      exact Hd.
Qed.

(** Without a credential, a JSON endpoint leaves the world as it is. *)
Lemma api_listEvents_absent body w :
  tokens w = None ->
  api_listEvents body w = (failure 500 (lit "Failed to fetch events"), w).
Proof.
  intros H. unfold api_listEvents, try_catch, bind.
  now rewrite (listEvents_unauthenticated w _ H).
Qed.

Lemma api_createEvent_absent body w :
  tokens w = None ->
  api_createEvent body w = (failure 500 (lit "Failed to create event"), w).
Proof.
  intros H. unfold api_createEvent, try_catch, bind.
  now rewrite (createEvent_unauthenticated w _ _ _ H).
Qed.

Lemma api_updateEvent_absent body w :
  tokens w = None ->
  api_updateEvent body w = (failure 500 (lit "Failed to update event"), w).
Proof.
  intros H. unfold api_updateEvent, try_catch, bind.
  now rewrite (updateEvent_unauthenticated w _ _ _ _ H).
Qed.

Lemma api_deleteEvent_absent body w :
  tokens w = None -> snd (api_deleteEvent body w) = w.
Proof.
  intros H. unfold api_deleteEvent, try_catch, bind.
  destruct (body_eventId body) as [[| c i] |]; try reflexivity.
  now rewrite (deleteEvent_unauthenticated w _ H).
Qed.

Lemma api_deleteEvent_failed body w eventId e w' :
  body_eventId body = Some eventId -> eventId <> [] ->
  deleteEvent eventId w = (inl e, w') ->
  api_deleteEvent body w = (failure 500 (lit "Failed to delete event"), w').
Proof.
  intros Hid Hne H. unfold api_deleteEvent, try_catch, bind.
  rewrite Hid. destruct eventId as [| c i]; [contradiction |]. now rewrite H.
Qed.

(** A request other than a fulfilled exchange keeps [tokens] absent. *)
Lemma app_keeps_absent req w :
  tokens w = None ->
  match req with
  | GET_oauth2callback code =>
      exists reason, fst (getToken code (provider w)) = inl reason
  | _ => True
  end ->
  tokens (snd (app req w)) = None.
Proof.
  intros H Hx. destruct req as [| code | body | body | body | body | body];
    unfold app, sent.
  - exact H.
  - unfold oauth2callback. destruct Hx as [reason Hr].
    destruct (getToken code (provider w)) as [res p]. simpl in Hr. subst res.
    exact H.
  - now rewrite (api_listEvents_absent body w H).
  - now rewrite (api_createEvent_absent body w H).
  - now rewrite (api_updateEvent_absent body w H).
  - pose proof (api_deleteEvent_absent body w H) as Hd.
    destruct (api_deleteEvent body w) as [r w']. simpl in *. now subst.
  - pose proof (api_chat_keeps_absent body w H) as Hd.
    destruct (api_chat body w) as [r w']. exact Hd.
Qed.

Lemma serve_keeps_absent reqs :
  forall w, tokens w = None -> exchanges_rejected reqs w ->
            tokens (serve reqs w) = None.
Proof.
  induction reqs as [| req reqs IH]; intros w H Hx; simpl.
  - exact H.
  - destruct Hx as [Hreq Hrest]. apply IH; [| exact Hrest].
    now apply app_keeps_absent.
Qed.

End Routes.

(** ** Calls before a successful exchange *)

(** C1. While no exchange of an authorization code has succeeded, the
    credential slot is absent, and each of [listEvents], [createEvent],
    [updateEvent] and [deleteEvent] throws the error "Not authenticated.
    Visit /auth" at once: the world, and with it the trace of calendar calls
    and the remote calendar, is left exactly as it was. *)
Theorem adapter_unauthenticated_before_exchange {E : Externals} :
  forall (w : World) (reqs : list Request),
    tokens w = None ->
    exchanges_rejected reqs w ->
    let w' := serve reqs w in
    tokens w' = None
    /\ unauthenticated = Error (lit "Not authenticated. Visit /auth")
    /\ kind_of unauthenticated = Unauthenticated
    /\ (forall maxResults, listEvents maxResults w' = (inl unauthenticated, w'))
    /\ (forall summary start end_,
          createEvent summary start end_ w' = (inl unauthenticated, w'))
    /\ (forall eventId summary start end_,
          updateEvent eventId summary start end_ w' = (inl unauthenticated, w'))
    /\ (forall eventId, deleteEvent eventId w' = (inl unauthenticated, w')).
Proof.
  intros w reqs H Hx w'.
  assert (H' : tokens w' = None) by now apply serve_keeps_absent.
  repeat split; trivial; intros.
  - now apply listEvents_unauthenticated.
  - now apply createEvent_unauthenticated.
  - now apply updateEvent_unauthenticated.
  - now apply deleteEvent_unauthenticated.
Qed.

Lemma adapter_unauthenticated_before_exchange_witness :
  let w := Stub.boot [inr (Some (lit "list_events"))] in
  let reqs := [ POST_listEvents Stub.empty_body; GET_oauth2callback None;
                POST_chat Stub.empty_body; GET_auth ] in
  tokens w = None
  /\ exchanges_rejected reqs w
  /\ listEvents (VNum 3) (serve reqs w) = (inl unauthenticated, serve reqs w)
  /\ deleteEvent (lit "a") (serve reqs w) = (inl unauthenticated, serve reqs w).
Proof.
  intros w reqs.
  assert (H0 : tokens w = None) by reflexivity.
  assert (Hx : exchanges_rejected reqs w).
  { simpl. repeat split. eexists. reflexivity. }
  destruct (adapter_unauthenticated_before_exchange w reqs H0 Hx)
    as (_ & _ & _ & Hlist & _ & _ & Hdelete).
  split; [exact H0 | split; [exact Hx | split; [apply Hlist | apply Hdelete]]].
Defined.

(** ** The in-memory calendar keeps the laws *)

Module StubLaws.
Import Stub.

Lemma time_leb_le a b : time_leb a b = true <-> time_le a b.
Proof.
  destruct a as [x |], b as [y |]; simpl; try tauto; try easy.
  apply Z.leb_le.
Qed.

Lemma time_le_trans a b c : time_le a b -> time_le b c -> time_le a c.
Proof.
  destruct a as [x |], b as [y |], c as [z |]; simpl; try tauto. lia.
Qed.

Lemma time_leb_total a b : time_leb a b = false -> time_le b a.
Proof.
  destruct a as [x |], b as [y |]; simpl; try easy.
  intros H. apply Z.leb_gt in H. lia.
Qed.

Lemma insert_by_start_In ev l x :
  In x (insert_by_start ev l) <-> x = ev \/ In x l.
Proof.
  induction l as [| y l IH]; simpl.
  - intuition.
  - destruct (time_leb (start_of ev) (start_of y)); simpl.
    + intuition.
    + rewrite IH. intuition.
Qed.

Lemma by_start_In l x : In x (by_start l) <-> In x l.
Proof.
  induction l as [| y l IH]; simpl; [tauto |].
  rewrite insert_by_start_In, IH. intuition.
Qed.

Lemma insert_by_start_sorted ev l :
  StronglySorted (fun x y => time_le (start_of x) (start_of y)) l ->
  StronglySorted (fun x y => time_le (start_of x) (start_of y))
    (insert_by_start ev l).
Proof.
  induction 1 as [| y l Hs IH Hy]; simpl.
  - constructor; constructor.
  - destruct (time_leb (start_of ev) (start_of y)) eqn:Hle.
    + apply time_leb_le in Hle. constructor.
      * now constructor.
      * constructor; [exact Hle |].
        eapply Forall_impl; [| exact Hy]. intros z Hz.
        now apply time_le_trans with (start_of y).
    + constructor; [exact IH |].
      apply Forall_forall. intros z Hz.
      apply insert_by_start_In in Hz. destruct Hz as [-> | Hz].
      * now apply time_leb_total.
      * now apply (proj1 (Forall_forall _ _) Hy).
Qed.

Lemma by_start_sorted l :
  StronglySorted (fun x y => time_le (start_of x) (start_of y)) (by_start l).
Proof.
  induction l as [| y l IH]; simpl.
  - constructor.
  - now apply insert_by_start_sorted.
Qed.

Lemma firstn_In {A} n (l : list A) x : In x (firstn n l) -> In x l.
Proof.
  revert l. induction n as [| n IH]; intros [| y l]; simpl; try tauto.
  intros [-> | H]; [now left | right; now apply IH].
Qed.

Lemma firstn_sorted {A} (R : A -> A -> Prop) n l :
  StronglySorted R l -> StronglySorted R (firstn n l).
Proof.
  revert l. induction n as [| n IH]; intros l Hs; simpl.
  - constructor.
  - destruct Hs as [| y l Hs Hy]; constructor.
    + now apply IH.
    + apply Forall_forall. intros z Hz. apply firstn_In in Hz.
      now apply (proj1 (Forall_forall _ _) Hy).
Qed.

(** What [list_events] returns, and where its items come from. *)
Lemma listed_inv a r c items :
  @listed externals a r c items ->
  exists n l,
    page_size (lr_maxResults r) = Some n
    /\ items = firstn n l
    /\ (forall x, In x l ->
          In x (events c) /\ upcoming (lr_timeMin r) x = true
          /\ (lr_singleEvents r = true -> single x = true))
    /\ (lr_orderBy r = lit "startTime" ->
        StronglySorted (fun x y => time_le (start_of x) (start_of y)) l).
Proof.
  intros (res & c' & H & ->). simpl in H. unfold list_events in H.
  destruct (page_size (lr_maxResults r)) as [n |]; [| discriminate].
  injection H as <- _. simpl. exists n. eexists. split; [reflexivity |].
  split; [reflexivity |]. split.
  - intros x Hx.
    assert (Hin : In x (if lr_singleEvents r
                        then filter single (filter (upcoming (lr_timeMin r)) (events c))
                        else filter (upcoming (lr_timeMin r)) (events c))).
    { destruct (jsstring_eqb (lr_orderBy r) (lit "startTime"));
        [now apply by_start_In | exact Hx]. }
    destruct (lr_singleEvents r).
    + apply filter_In in Hin as [Hin Hs]. apply filter_In in Hin as [Hin Hu].
      auto.
    + apply filter_In in Hin as [Hin Hu]. repeat split; auto. discriminate.
  - intros Ho. rewrite Ho, jsstring_eqb_refl. apply by_start_sorted.
Qed.

Lemma maxResults_kept : @list_honours_maxResults externals.
Proof.
  intros a r c items n H Hn.
  destruct (listed_inv a r c items H) as (k & l & Hk & -> & _).
  rewrite Hn in Hk. simpl in Hk.
  destruct (0 <=? n) eqn:H0; [| discriminate]. injection Hk as <-.
  apply Z.leb_le in H0. pose proof (firstn_le_length (Z.to_nat n) l). lia.
Qed.

Lemma orderBy_kept : @list_honours_orderBy externals.
Proof.
  intros a r c items H Ho.
  destruct (listed_inv a r c items H) as (k & l & _ & -> & _ & Hs).
  apply firstn_sorted. now apply Hs.
Qed.

Lemma singleEvents_kept : @list_honours_singleEvents externals.
Proof.
  intros a r c items H Hse.
  destruct (listed_inv a r c items H) as (k & l & _ & -> & Hl & _).
  apply Forall_forall. intros x Hx. apply firstn_In in Hx.
  destruct (Hl x Hx) as (_ & _ & Hs). specialize (Hs Hse).
  unfold single in Hs. now destruct (ev_recurrence x).
Qed.

Lemma has_id_found i ev l :
  In ev l -> has_id i ev = true -> find (has_id i) l <> None.
Proof.
  intros Hin Hid Hnone.
  pose proof (find_none _ _ Hnone ev Hin). congruence.
Qed.

Lemma stored_listed : @list_returns_stored externals.
Proof.
  intros a r c items ev i H Hin Hid.
  destruct (listed_inv a r c items H) as (k & l & _ & -> & Hl & _).
  apply firstn_In in Hin. destruct (Hl ev Hin) as (Hc & _).
  simpl. unfold lookup. apply has_id_found with ev; [exact Hc |].
  unfold has_id. rewrite Hid. apply jsstring_eqb_refl.
Qed.

Lemma delete_removes_kept : @delete_removes externals.
Proof.
  intros a r c c' H. simpl in *. unfold delete_event in H.
  destruct (lookup c (dr_eventId r)); [| discriminate].
  injection H as <-. unfold lookup. simpl.
  destruct (find _ _) as [x |] eqn:Hf; [| reflexivity].
  apply find_some in Hf as [Hin Hid]. apply filter_In in Hin as [_ Hn].
  rewrite Hid in Hn. discriminate.
Qed.

Lemma delete_rejects_unknown_kept : @delete_rejects_unknown externals.
Proof.
  intros a r c H. simpl in *. unfold delete_event. rewrite H.
  eexists. reflexivity.
Qed.

Lemma find_map_same_id j (f : RawEvent -> RawEvent) l :
  (forall x, ev_id (f x) = ev_id x) ->
  find (has_id j) (map f l) = option_map f (find (has_id j) l).
Proof.
  intros Hf. induction l as [| x l IH]; simpl; [reflexivity |].
  unfold has_id at 1. rewrite Hf. fold (has_id j x).
  destruct (has_id j x); [reflexivity | exact IH].
Qed.

Lemma patch_leaves_omitted_kept : @patch_leaves_omitted externals.
Proof.
  intros a r c res c' i ev H Hs. simpl in *. unfold patch_event in H.
  destruct (pr_eventId r) as [j |].
  2:{ injection H as _ <-. exists ev. auto. }
  destruct (lookup c j) as [old |].
  2:{ injection H as _ <-. exists ev. auto. }
  injection H as _ <-. unfold lookup in *. simpl.
  rewrite find_map_same_id.
  2:{ intros x. now destruct (has_id j x). }
  rewrite Hs. simpl. eexists. split; [reflexivity |].
  destruct (has_id j ev); [| auto].
  simpl. repeat split; intros ->; reflexivity.
Qed.

End StubLaws.

(** ** Listing *)

Section Listing.
Context {E : Externals}.

(** A list that [listEvents] returns is the image of the items of one
    [events.list] call, made with the request the function builds. *)
Lemma listEvents_returns w v evs w' :
  listEvents v w = (inr evs, w') ->
  exists t items,
    tokens w = Some t
    /\ listed t (list_request (clock w) (default_arg v (VNum 5))) (remote w) items
    /\ evs = map summarize items
    /\ trace w' = CalList t (list_request (clock w) (default_arg v (VNum 5)))
                    :: trace w.
Proof.
  intros H. destruct (tokens w) as [t |] eqn:Ht.
  2:{ rewrite (listEvents_unauthenticated w v Ht) in H. discriminate. }
  rewrite (listEvents_authenticated w v t Ht) in H. cbv zeta in H.
  destruct (events_list t _ (remote w)) as [[reason | res] c] eqn:Hl;
    simpl in H; [discriminate |].
  injection H as <- <-. exists t, (items_or_empty res).
  repeat split; trivial. now exists res, c.
Qed.

Lemma start_summarize ev : start (summarize ev) = start_of ev.
Proof. reflexivity. Qed.

Lemma sorted_map_summarize items :
  StronglySorted (fun x y => time_le (start_of x) (start_of y)) items ->
  StronglySorted (fun x y => time_le (start x) (start y)) (map summarize items).
Proof.
  induction 1 as [| ev items Hs IH Hev]; simpl; constructor; [exact IH |].
  apply Forall_map. exact Hev.
Qed.

End Listing.

(** ** Chat dispatch *)

Section Chat.
Context {E : Externals}.

Lemma classify_fulfilled instruction message w content w1 :
  openai_chat_completions_create (messages instruction message) w
  = (inr content, w1) ->
  classify instruction message w = (inr (option_map trim content), w1).
Proof. intros H. unfold classify, bind, ret. now rewrite H. Qed.

Lemma classify_rejected instruction message w e w1 :
  openai_chat_completions_create (messages instruction message) w
  = (inl e, w1) ->
  classify instruction message w = (inl e, w1).
Proof. intros H. unfold classify, bind. now rewrite H. Qed.

(** A label outside the vocabulary matches none of the four tests. *)
Lemma outside_vocabulary intent :
  in_vocabulary intent = false ->
  intent_is intent "list_events" = false
  /\ intent_is intent "create_event" = false
  /\ intent_is intent "update_event" = false
  /\ intent_is intent "delete_event" = false.
Proof.
  destruct intent as [i |]; simpl; [| tauto].
  intros H. repeat (apply orb_false_iff in H; destruct H as [? H]). tauto.
Qed.

Lemma dispatch_outside_vocabulary intent message :
  in_vocabulary intent = false -> dispatch intent message = fallback message.
Proof.
  intros H. destruct (outside_vocabulary intent H) as (H1 & H2 & H3 & H4).
  unfold dispatch. now rewrite H1, H2, H3, H4.
Qed.

(** The fallback, from the answer of the language model. *)
Lemma fallback_fulfilled message w reply l :
  completions_create (messages chatbot_instruction message) (model w)
  = (inr reply, l) ->
  fst (fallback message w)
  = inr (json (ReplyText (match reply with
                          | Some (c :: r) => c :: r
                          | _ => No_response
                          end))).
Proof.
  intros H. unfold fallback, bind, ret, openai_chat_completions_create.
  now rewrite H.
Qed.

Lemma fallback_rejected message w reason l :
  completions_create (messages chatbot_instruction message) (model w)
  = (inl reason, l) ->
  fst (fallback message w) = inl (Rejected reason).
Proof.
  intros H. unfold fallback, bind, ret, openai_chat_completions_create.
  now rewrite H.
Qed.

Lemma legacy_api_chat_classified body w intent w1 :
  classify Legacy.classifier_instruction (body_message body) w = (inr intent, w1) ->
  Legacy.api_chat body w
  = try_catch (Legacy.dispatch intent (body_message body)) Chat_failed w1.
Proof.
  intros H. unfold Legacy.api_chat, try_catch, bind. now rewrite H.
Qed.

End Chat.

(** C2, as the code has it. When the classification call is fulfilled and
    the trimmed text is [list_events], the chat endpoint runs [listEvents]
    with no argument: the reply is the list it returns (in the earlier chat
    server, the JSON text of that list), and the fixed 500 response "Chat
    failed" when it throws.  When the trimmed text is outside the vocabulary,
    or there is no text, the request goes to the conversational fallback: the
    reply is the text the language model gives (a fixed "No response" text
    when it gives none), and the response is the fixed 500 response only when
    that second call is itself rejected. *)
Theorem chat_dispatch_list_and_fallback {E : Externals} :
  forall (body : Body) (w : World),
    (forall content w1,
        openai_chat_completions_create
          (messages classifier_instruction (body_message body)) w
        = (inr content, w1) ->
        (option_map trim content = Some (lit "list_events") ->
         api_chat body w
         = match listEvents VUndefined w1 with
           | (inr events, w2) => (json (ReplyEvents events), w2)
           | (inl _, w2) => (Chat_failed, w2)
           end)
        /\ (in_vocabulary (option_map trim content) = false ->
            api_chat body w
            = try_catch (fallback (body_message body)) Chat_failed w1
            /\ (forall reply l,
                  completions_create
                    (messages chatbot_instruction (body_message body)) (model w1)
                  = (inr reply, l) ->
                  fst (api_chat body w)
                  = json (ReplyText (match reply with
                                     | Some (c :: r) => c :: r
                                     | _ => No_response
                                     end)))
            /\ (forall reason l,
                  completions_create
                    (messages chatbot_instruction (body_message body)) (model w1)
                  = (inl reason, l) ->
                  fst (api_chat body w) = Chat_failed)))
    /\ (forall content w1,
          openai_chat_completions_create
            (messages Legacy.classifier_instruction (body_message body)) w
          = (inr content, w1) ->
          option_map trim content = Some (lit "list_events") ->
          Legacy.api_chat body w
          = match listEvents VUndefined w1 with
            | (inr events, w2) => (json (ReplyText (JSON_stringify events)), w2)
            | (inl _, w2) => (Chat_failed, w2)
            end)
    /\ (forall content w1,
          openai_chat_completions_create
            (messages Legacy.classifier_instruction (body_message body)) w
          = (inr content, w1) ->
          in_vocabulary (option_map trim content) = false ->
          Legacy.api_chat body w
          = try_catch (fallback (body_message body)) Chat_failed w1).
Proof.
  intros body w. split; [| split].
  - intros content w1 H.
    rewrite (api_chat_classified body w _ w1 (classify_fulfilled _ _ w content w1 H)).
    split.
    + intros ->. unfold try_catch, dispatch, bind, ret.
      rewrite intent_is_label.
      now destruct (listEvents VUndefined w1) as [[e | events] w2].
    + intros Hout. rewrite (dispatch_outside_vocabulary _ _ Hout).
      split; [reflexivity |]. unfold try_catch. split.
      * intros reply l Hl.
        pose proof (fallback_fulfilled (body_message body) w1 reply l Hl) as Hf.
        destruct (fallback (body_message body) w1) as [[e | r] w2];
          simpl in *; congruence.
      * intros reason l Hl.
        pose proof (fallback_rejected (body_message body) w1 reason l Hl) as Hf.
        destruct (fallback (body_message body) w1) as [[e | r] w2];
          simpl in *; congruence.
  - intros content w1 H Hi.
    rewrite (legacy_api_chat_classified body w _ w1
               (classify_fulfilled _ _ w content w1 H)), Hi.
    unfold try_catch, Legacy.dispatch, bind, ret.
    rewrite intent_is_label.
    now destruct (listEvents VUndefined w1) as [[e | events] w2].
  - intros content w1 H Hout.
    rewrite (legacy_api_chat_classified body w _ w1
               (classify_fulfilled _ _ w content w1 H)).
    destruct (outside_vocabulary _ Hout) as (H1 & H2 & H3 & _).
    unfold Legacy.dispatch. now rewrite H1, H2, H3.
Qed.

Lemma chat_dispatch_list_and_fallback_witness :
  let w := Stub.signed_in [inr (Some (lit "  list_events "))] in
  match fst (api_chat Stub.empty_body w) with
  | {| status := 200; payload := ReplyEvents events |} =>
      map id events = [Some (lit "b"); Some (lit "d"); Some (lit "a")]
  | _ => False
  end.
Proof.
  intros w.
  destruct (openai_chat_completions_create
              (messages classifier_instruction (body_message Stub.empty_body)) w)
    as [[e | content] w1] eqn:H.
  - vm_compute in H. discriminate.
  - destruct (chat_dispatch_list_and_fallback Stub.empty_body w) as (Hfull & _).
    destruct (Hfull content w1 H) as [Hlist _].
    rewrite Hlist.
    + vm_compute in H. injection H as <- <-. vm_compute. reflexivity.
    + vm_compute in H. injection H as <- _. reflexivity.
Defined.

(** C2 as stated fails.  The classifier answers [remind_me], a label outside
    the vocabulary; the request goes to the fallback, whose call of the
    language model is rejected; the response is the 500 error "Chat failed",
    not a reply. *)
Lemma chat_fallback_can_fail :
  let w := Stub.signed_in [inr (Some (lit "remind_me"))] in
  let body := Stub.body VUndefined None None None None
                (Some (lit "remind me to call Ann")) in
  fst (openai_chat_completions_create
         (messages classifier_instruction (body_message body)) w)
  = inr (Some (lit "remind_me"))
  /\ in_vocabulary (option_map trim (Some (lit "remind_me"))) = false
  /\ fst (api_chat body w) = failure 500 (lit "Chat failed")
  /\ ~ (exists reply, fst (api_chat body w) = json (ReplyText reply)).
Proof.
  intros w body.
  assert (H : fst (api_chat body w) = failure 500 (lit "Chat failed"))
    by (vm_compute; reflexivity).
  repeat split; try (vm_compute; reflexivity).
  intros [reply Hr]. rewrite H in Hr. discriminate.
Qed.

(** ** Chat: create, update, delete *)

Section Placeholder.
Context {E : Externals}.

Lemma Date_toISOString_valid x t w :
  new_Date_of x = Some t -> Date_toISOString x w = (inr (toISOString t), w).
Proof. intros H. unfold Date_toISOString. now rewrite H. Qed.

Lemma Date_toISOString_invalid x w :
  new_Date_of x = None -> Date_toISOString x w = (inl RangeError, w).
Proof. intros H. unfold Date_toISOString. now rewrite H. Qed.

(** [createEvent] with a credential and two valid dates: one
    [events.insert] call. *)
Lemma createEvent_authenticated w summary start end_ t s e :
  tokens w = Some t ->
  new_Date_of start = Some s -> new_Date_of end_ = Some e ->
  createEvent summary start end_ w =
    let r := insert_request summary s e in
    let w' := set_remote (snd (events_insert t r (remote w)))
                (log (CalInsert t r) (holding t w)) in
    match fst (events_insert t r (remote w)) with
    | inl reason => (inl (Rejected reason), w')
    | inr ev => (inr (written ev), w')
    end.
Proof.
  intros H Hs He.
  unfold createEvent, bind, require_tokens, ret, holding,
    calendar_events_insert, calendar_call.
  rewrite H. simpl.
  rewrite (Date_toISOString_valid _ _ _ Hs), (Date_toISOString_valid _ _ _ He).
  simpl. fold (insert_request summary s e).
  destruct (events_insert t _ (remote w)) as [[reason | ev] c]; reflexivity.
Qed.

(** [createEvent] with a credential and an invalid date: a RangeError
    before any call. *)
Lemma createEvent_invalid w summary start end_ t :
  tokens w = Some t ->
  new_Date_of start = None \/ new_Date_of end_ = None ->
  createEvent summary start end_ w = (inl RangeError, holding t w).
Proof.
  intros H Hbad.
  unfold createEvent, bind, require_tokens, ret, holding. rewrite H. simpl.
  destruct (new_Date_of start) as [s |] eqn:Hs.
  - destruct Hbad as [Hbad | Hbad]; [discriminate |].
    rewrite (Date_toISOString_valid _ _ _ Hs).
    now rewrite (Date_toISOString_invalid _ _ Hbad).
  - now rewrite (Date_toISOString_invalid _ _ Hs).
Qed.

Lemma holding_trace t w : trace (holding t w) = trace w.
Proof. reflexivity. Qed.

(** The calendar calls of [createEvent]: none, or one insert whose body
    holds the title as given and the two dates converted. *)
Lemma createEvent_calls w summary start end_ r w' :
  createEvent summary start end_ w = (r, w') ->
  trace w' = trace w
  \/ exists t s e,
       tokens w = Some t
       /\ new_Date_of start = Some s /\ new_Date_of end_ = Some e
       /\ trace w' = CalInsert t (insert_request summary s e) :: trace w.
Proof.
  intros H. destruct (tokens w) as [t |] eqn:Ht.
  2:{ rewrite (createEvent_unauthenticated w _ _ _ Ht) in H.
      injection H as _ <-. now left. }
  destruct (new_Date_of start) as [s |] eqn:Hs.
  2:{ rewrite (createEvent_invalid w _ _ _ t Ht (or_introl Hs)) in H.
      injection H as _ <-. now left. }
  destruct (new_Date_of end_) as [e |] eqn:He.
  2:{ rewrite (createEvent_invalid w _ _ _ t Ht (or_intror He)) in H.
      injection H as _ <-. now left. }
  rewrite (createEvent_authenticated w _ _ _ t s e Ht Hs He) in H.
  cbv zeta in H. right. exists t, s, e. repeat split; trivial.
  destruct (fst (events_insert t _ (remote w))); injection H as _ <-;
    reflexivity.
Qed.

End Placeholder.

(** C6. A chat request classified as [create_event] runs [createEvent] with
    the title "New Event" and the times 2025-09-25T10:00:00 and
    2025-09-25T11:00:00, in the full server and in the earlier one.  Nothing
    of the request body enters the call: the only calendar call it can make
    is the insert of that title and those two dates. *)
Theorem chat_create_uses_placeholder {E : Externals} :
  forall (body : Body) (w : World),
    create_placeholder
    = bind (createEvent (Some (lit "New Event"))
              (Some (lit "2025-09-25T10:00:00"))
              (Some (lit "2025-09-25T11:00:00")))
        (fun event =>
           ret (json (ReplyText (Event_created ++ interpolate (link event)))))
    /\ (forall content w1,
          openai_chat_completions_create
            (messages classifier_instruction (body_message body)) w
          = (inr content, w1) ->
          option_map trim content = Some (lit "create_event") ->
          api_chat body w = try_catch create_placeholder Chat_failed w1
          /\ (trace (snd (api_chat body w)) = trace w1
              \/ exists t s e,
                   tokens w1 = Some t
                   /\ Date_parse (lit "2025-09-25T10:00:00") = Some s
                   /\ Date_parse (lit "2025-09-25T11:00:00") = Some e
                   /\ trace (snd (api_chat body w))
                      = CalInsert t (insert_request (Some (lit "New Event")) s e)
                          :: trace w1))
    /\ (forall content w1,
          openai_chat_completions_create
            (messages Legacy.classifier_instruction (body_message body)) w
          = (inr content, w1) ->
          option_map trim content = Some (lit "create_event") ->
          Legacy.api_chat body w = try_catch create_placeholder Chat_failed w1).
Proof.
  intros body w. split; [reflexivity |]. split.
  - intros content w1 H Hi.
    assert (Heq : api_chat body w = try_catch create_placeholder Chat_failed w1).
    { rewrite (api_chat_classified body w _ w1
                 (classify_fulfilled _ _ w content w1 H)), Hi.
      reflexivity. }
    split; [exact Heq |]. rewrite Heq.
    unfold try_catch, create_placeholder, bind, ret.
    destruct (createEvent _ _ _ w1) as [[e | event] w2] eqn:Hc;
      exact (createEvent_calls w1 _ _ _ _ w2 Hc).
  - intros content w1 H Hi.
    rewrite (legacy_api_chat_classified body w _ w1
               (classify_fulfilled _ _ w content w1 H)), Hi.
    reflexivity.
Qed.

Lemma chat_create_uses_placeholder_witness :
  let script := [inr (Some (lit "create_event"))] in
  let quiet := Stub.body VUndefined None None None None None in
  let loud := Stub.body VUndefined None None None None
                (Some (lit "dentist on friday at 3pm")) in
  fst (api_chat quiet (Stub.signed_in script))
  = fst (api_chat loud (Stub.signed_in script))
  /\ exists link,
       fst (api_chat loud (Stub.signed_in script))
       = json (ReplyText (Event_created ++ link))
       /\ Stub.events (remote (snd (api_chat loud (Stub.signed_in script))))
          = Stub.events Stub.calendar
              ++ [ {| ev_id := Some (lit "evt" ++ [0%N]);
                      ev_summary := Some (lit "New Event");
                      ev_start := Stub.at_ 1758794400000;
                      ev_end := Stub.at_ 1758798000000;
                      ev_htmlLink := Some link;
                      ev_recurrence := [] |} ].
Proof.
  intros script quiet loud.
  destruct (chat_create_uses_placeholder quiet (Stub.signed_in script))
    as (_ & Hq & _).
  destruct (chat_create_uses_placeholder loud (Stub.signed_in script))
    as (_ & Hl & _).
  destruct (Hq _ _ eq_refl eq_refl) as [Hq' _].
  destruct (Hl _ _ eq_refl eq_refl) as [Hl' _].
  rewrite Hq', Hl'. split; [reflexivity |].
  eexists. split; vm_compute; reflexivity.
Defined.

(** C7. A chat request classified as [update_event] or [delete_event] is
    answered with a fixed sentence pointing at the button.  By then the only
    call made is the classification request: the remote calendar is the one
    the request found, and no calendar call was added to the trace. *)
Theorem chat_update_delete_are_static {E : Externals} :
  forall (body : Body) (w : World) (content : option jsstring) (w1 : World),
    openai_chat_completions_create
      (messages classifier_instruction (body_message body)) w
    = (inr content, w1) ->
    (option_map trim content = Some (lit "update_event") ->
     api_chat body w
     = (json (ReplyText (lit "Use the [Update] button on an event to modify it.")),
        w1))
    /\ (option_map trim content = Some (lit "delete_event") ->
        api_chat body w
        = (json (ReplyText (lit "Use the [Delete] button on an event to remove it.")),
           w1))
    /\ remote w1 = remote w
    /\ trace w1
       = LlmComplete (messages classifier_instruction (body_message body))
           :: trace w
    /\ filter is_calendar_call (trace w1) = filter is_calendar_call (trace w).
Proof.
  intros body w content w1 H.
  pose proof (completion_effect
                (messages classifier_instruction (body_message body)) w) as Hw.
  rewrite H in Hw. simpl in Hw. destruct Hw as (_ & _ & _ & Hr & Ht).
  pose proof (api_chat_classified body w _ w1
                (classify_fulfilled _ _ w content w1 H)) as Heq.
  repeat split; trivial.
  - intros Hi. rewrite Heq, Hi. reflexivity.
  - intros Hi. rewrite Heq, Hi. reflexivity.
  - rewrite Ht. reflexivity.
Qed.

Lemma chat_update_delete_are_static_witness :
  let w := Stub.signed_in [inr (Some (lit "delete_event "))] in
  fst (api_chat Stub.empty_body w)
  = json (ReplyText (lit "Use the [Delete] button on an event to remove it."))
  /\ remote (snd (api_chat Stub.empty_body w)) = Stub.calendar
  /\ filter is_calendar_call (trace (snd (api_chat Stub.empty_body w))) = [].
Proof.
  intros w.
  destruct (chat_update_delete_are_static Stub.empty_body w _ _ eq_refl)
    as (_ & Hd & Hr & _ & Hc).
  rewrite (Hd eq_refl). simpl fst. simpl snd.
  split; [reflexivity |]. split; [exact Hr | exact Hc].
Defined.

(** ** Updating *)

Section Updating.
Context {E : Externals}.

Lemma optional_time_usable x w :
  usable x = true -> optional_time x w = (inr (patch_time x), w).
Proof.
  unfold usable, optional_time, patch_time, bind, ret. intros H.
  destruct (nonempty x); [| reflexivity].
  destruct (new_Date_of x) as [t |] eqn:Hx; [| discriminate].
  now rewrite (Date_toISOString_valid x t w Hx).
Qed.

Lemma optional_time_unusable x w :
  usable x = false -> optional_time x w = (inl RangeError, w).
Proof.
  unfold usable, optional_time, bind. intros H.
  destruct (nonempty x); [| discriminate].
  destruct (new_Date_of x) as [t |] eqn:Hx; [discriminate |].
  now rewrite (Date_toISOString_invalid x w Hx).
Qed.

(** [updateEvent] with a credential and usable dates: one [events.patch]
    call. *)
Lemma updateEvent_authenticated w eventId summary start end_ t :
  tokens w = Some t -> usable start = true -> usable end_ = true ->
  updateEvent eventId summary start end_ w =
    let r := patch_request eventId summary start end_ in
    let w' := set_remote (snd (events_patch t r (remote w)))
                (log (CalPatch t r) (holding t w)) in
    match fst (events_patch t r (remote w)) with
    | inl reason => (inl (Rejected reason), w')
    | inr ev => (inr (written ev), w')
    end.
Proof.
  intros H Hs He.
  unfold updateEvent, bind, require_tokens, ret, holding,
    calendar_events_patch, calendar_call.
  rewrite H. simpl.
  rewrite (optional_time_usable _ _ Hs), (optional_time_usable _ _ He).
  simpl. fold (patch_request eventId summary start end_).
  destruct (events_patch t _ (remote w)) as [[reason | ev] c]; reflexivity.
Qed.

(** [updateEvent] without a credential or with an unusable date: no call. *)
Lemma updateEvent_stopped w eventId summary start end_ r w' :
  tokens w = None \/ usable start = false \/ usable end_ = false ->
  updateEvent eventId summary start end_ w = (r, w') ->
  remote w' = remote w /\ trace w' = trace w.
Proof.
  intros Hstop H. destruct (tokens w) as [t |] eqn:Ht.
  2:{ rewrite (updateEvent_unauthenticated w _ _ _ _ Ht) in H.
      injection H as _ <-. now split. }
  revert H.
  unfold updateEvent, bind, require_tokens, ret. rewrite Ht. simpl.
  destruct (usable start) eqn:Hs.
  - rewrite (optional_time_usable _ _ Hs).
    destruct (usable end_) eqn:He.
    + destruct Hstop as [Hstop | [Hstop | Hstop]]; discriminate.
    + rewrite (optional_time_unusable _ _ He). intros H.
      injection H as _ <-. now split.
  - rewrite (optional_time_unusable _ _ Hs). intros H.
    injection H as _ <-. now split.
Qed.

Lemma patch_time_omitted : patch_time None = None.
Proof. reflexivity. Qed.

End Updating.

(** C8. Against a calendar service whose patch keeps the fields its body
    leaves out: after [updateEvent(id, title?, start?, end?)], whatever it
    returned or threw, every event the calendar held is still held, with its
    title unchanged when [title] was omitted, its start unchanged when
    [start] was omitted, and its end unchanged when [end] was omitted.  With
    a credential, and each supplied date a valid one, the call made is one
    patch whose body carries the title as given and each supplied date as
    [{ dateTime: new Date(x).toISOString() }]. *)
Theorem update_leaves_omitted_fields {E : Externals} :
  patch_leaves_omitted ->
  forall (eventId summary start end_ : option jsstring) (w : World) r w',
    updateEvent eventId summary start end_ w = (r, w') ->
    (forall i ev,
        stored (remote w) i = Some ev ->
        exists ev',
          stored (remote w') i = Some ev'
          /\ (summary = None -> ev_summary ev' = ev_summary ev)
          /\ (start = None -> ev_start ev' = ev_start ev)
          /\ (end_ = None -> ev_end ev' = ev_end ev))
    /\ (forall t,
          tokens w = Some t -> usable start = true -> usable end_ = true ->
          trace w' = CalPatch t (patch_request eventId summary start end_)
                       :: trace w)
    /\ (forall x s t,
          x = Some s -> s <> [] -> Date_parse s = Some t ->
          patch_time x
          = Some {| dateTime := Some {| text := iso_text t; instant := t |};
                    date := None |}).
Proof.
  intros Hpatch eventId summary start end_ w r w' H.
  split; [| split].
  - intros i ev Hev.
    destruct (tokens w) as [t |] eqn:Ht.
    2:{ destruct (updateEvent_stopped w _ _ _ _ r w' (or_introl Ht) H) as [Hr _].
        rewrite Hr. exists ev. auto. }
    destruct (usable start) eqn:Hs.
    2:{ destruct (updateEvent_stopped w _ _ _ _ r w'
                    (or_intror (or_introl Hs)) H) as [Hr _].
        rewrite Hr. exists ev. auto. }
    destruct (usable end_) eqn:He.
    2:{ destruct (updateEvent_stopped w _ _ _ _ r w'
                    (or_intror (or_intror He)) H) as [Hr _].
        rewrite Hr. exists ev. auto. }
    rewrite (updateEvent_authenticated w _ _ _ _ t Ht Hs He) in H.
    cbv zeta in H.
    destruct (events_patch t (patch_request eventId summary start end_) (remote w))
      as [res c] eqn:Hp.
    assert (Hw' : remote w' = c).
    { simpl in H. destruct res; injection H as _ <-; reflexivity. }
    destruct (Hpatch t _ _ res c i ev Hp Hev) as (ev' & Hev' & Hsum & Hst & Hen).
    exists ev'. rewrite Hw'. split; [exact Hev' |]. simpl in *.
    repeat split.
    + intros ->. now apply Hsum.
    + intros ->. now apply Hst.
    + intros ->. now apply Hen.
  - intros t Ht Hs He.
    rewrite (updateEvent_authenticated w _ _ _ _ t Ht Hs He) in H.
    cbv zeta in H.
    destruct (fst (events_patch t _ (remote w))); injection H as _ <-;
      reflexivity.
  - intros x s t -> Hne Hp. unfold patch_time.
    destruct s as [| c s]; [contradiction |]. simpl. now rewrite Hp.
Qed.

Lemma update_leaves_omitted_fields_witness :
  let w := Stub.signed_in [] in
  let w' := snd (updateEvent (Some (lit "a")) (Some (lit "Daily standup"))
                   None None w) in
  exists ev',
    stored (remote w') (lit "a") = Some ev'
    /\ ev_summary ev' = Some (lit "Daily standup")
    /\ ev_start ev' = Stub.at_ 5000
    /\ ev_end ev' = Stub.at_ 3605000.
Proof.
  intros w w'. subst w'.
  destruct (updateEvent (Some (lit "a")) (Some (lit "Daily standup")) None None w)
    as [r w1] eqn:H.
  simpl snd.
  destruct (update_leaves_omitted_fields StubLaws.patch_leaves_omitted_kept
              _ _ _ _ w r w1 H) as (Hframe & _).
  destruct (Hframe (lit "a") (Stub.event "a" "Standup" 5000 []) eq_refl)
    as (ev' & Hev' & _ & Hst & Hen).
  exists ev'. split; [exact Hev' |]. split.
  - vm_compute in H. injection H as _ <-.
    vm_compute in Hev'. injection Hev' as <-. reflexivity.
  - split; [rewrite (Hst eq_refl) | rewrite (Hen eq_refl)]; reflexivity.
Defined.

(** ** The tool-invocation server of [src/index.ts] *)

Section Tool.
Context {E : Externals}.

(** The listing of [src/index.ts]: one [events.list] call. *)
Lemma list_upcoming_calls t v w :
  Index.list_upcoming t v w =
    let r := list_request (clock w) v in
    (match fst (events_list t r (remote w)) with
     | inl reason => inl (Rejected reason)
     | inr items => inr items
     end,
     set_remote (snd (events_list t r (remote w)))
       (log (CalList t r) (holding t w))).
Proof.
  unfold Index.list_upcoming, bind, new_Date, calendar_events_list,
    calendar_call, holding.
  simpl.
  destruct (events_list t _ (remote w)) as [[reason | items] c]; reflexivity.
Qed.

(** The handler with a credential: one [events.list] call. *)
Lemma listEvents_handler_calls v w t :
  tokens w = Some t ->
  trace (snd (Index.listEvents_handler v w))
  = CalList t (list_request (clock w) (or_else v (VNum 5))) :: trace w.
Proof.
  intros H. unfold Index.listEvents_handler. rewrite H.
  unfold Index.list_upcoming, bind, new_Date, calendar_events_list,
    calendar_call.
  simpl.
  destruct (events_list t _ (remote w)) as [[reason | items] c]; reflexivity.
Qed.

Lemma callTool_listEvents maxResults v w :
  Index.parse (Index.z_number_optional_default 5) maxResults = Some v ->
  Index.callTool Index.mcp (lit "listEvents") maxResults w
  = let '(r, w') := Index.listEvents_handler v w in (Some r, w').
Proof.
  intros H. unfold Index.callTool.
  replace (find _ (Index.registeredTools Index.mcp))
    with (Some Index.listEvents_tool) by reflexivity.
  simpl Index.inputSchema. simpl snd. rewrite H. reflexivity.
Qed.

(** [x || 5] is [5] for a falsy [x], [x] otherwise, and never [0]. *)
Lemma or_else_5 v :
  (truthy v = false -> or_else v (VNum 5) = VNum 5)
  /\ (truthy v = true -> or_else v (VNum 5) = v)
  /\ or_else v (VNum 5) <> VNum 0.
Proof.
  unfold or_else. destruct (truthy v) eqn:Hv; repeat split; try easy.
  intros ->. discriminate.
Qed.

(** The default parameter of [listEvents] never applies after [x || 5]. *)
Lemma default_after_or_else v :
  default_arg (or_else v (VNum 5)) (VNum 5) = or_else v (VNum 5).
Proof.
  unfold or_else. destruct (truthy v) eqn:Hv; [| reflexivity].
  destruct v; try reflexivity. discriminate.
Qed.

Lemma api_listEvents_calls body w t :
  tokens w = Some t ->
  trace (snd (api_listEvents body w))
  = CalList t (list_request (clock w) (or_else (body_maxResults body) (VNum 5)))
      :: trace w.
Proof.
  intros H. unfold api_listEvents, try_catch, bind.
  rewrite (listEvents_authenticated w _ t H). cbv zeta.
  rewrite default_after_or_else.
  destruct (fst (events_list t _ (remote w))); reflexivity.
Qed.

End Tool.

(** The server that the full program and the earlier chat server construct
    has no tool. *)
Lemma mcp_without_tools_is_empty {E : Externals} :
  Index.registeredTools mcp_without_tools = [].
Proof. reflexivity. Qed.

(** ** A falsy [maxResults] at the two list interfaces *)

(** C10 as stated fails.  A caller who asks for one event at either
    interface gets a cap of 1, which is below the default 5. *)
Lemma cap_below_default :
  let w := Stub.signed_in [] in
  trace (snd (api_listEvents (Stub.body (VNum 1) None None None None None) w))
  = [CalList Stub.credential (@list_request Stub.externals 1000 (VNum 1))]
  /\ trace (snd (Index.callTool Index.mcp (lit "listEvents") (VNum 1) w))
     = [CalList Stub.credential (@list_request Stub.externals 1000 (VNum 1))]
  /\ 1 < 5
  /\ ~ (forall v n, or_else v (VNum 5) = VNum n -> 5 <= n).
Proof.
  intros w. repeat split; try (vm_compute; reflexivity).
  intros H. specialize (H (VNum 1) 1 eq_refl). lia.
Qed.

(** ** After a fulfilled exchange *)

(** X1. When the identity provider fulfils the exchange of the code, the
    callback stores the new credential in [tokens] and in the OAuth client,
    answers 200, and leaves the calendar alone; from then on [listEvents]
    reaches the calendar with that credential. *)
Theorem exchange_stores_credential {E : Externals} :
  forall (code : option jsstring) (w : World) (newTokens : Tokens) (p : idp),
    getToken code (provider w) = (inr newTokens, p) ->
    let w' := snd (oauth2callback code w) in
    tokens w' = Some newTokens
    /\ credentials w' = Some newTokens
    /\ (exists r, fst (oauth2callback code w) = Some r /\ status r = 200)
    /\ remote w' = remote w
    /\ trace w' = TokenExchange code :: trace w
    /\ forall maxResults,
         trace (snd (listEvents maxResults w'))
         = CalList newTokens
             (list_request (clock w') (default_arg maxResults (VNum 5)))
             :: trace w'.
Proof.
  intros code w newTokens p H w'. subst w'. unfold oauth2callback.
  rewrite H. simpl. repeat split; trivial.
  - eexists. split; reflexivity.
  - intros maxResults.
    erewrite (listEvents_authenticated _ maxResults newTokens);
      [| reflexivity].
    cbv zeta. now destruct (fst (events_list newTokens _ _)).
Qed.

Lemma exchange_stores_credential_witness :
  let w := snd (oauth2callback (Some (lit "4/0Ab"))
                  (Stub.boot [])) in
  tokens w = Some Stub.credential
  /\ trace (snd (listEvents VUndefined w))
     = [ CalList Stub.credential (@list_request Stub.externals 1000 (VNum 5));
         TokenExchange (Some (lit "4/0Ab")) ].
Proof.
  intros w. subst w.
  destruct (exchange_stores_credential (Some (lit "4/0Ab")) (Stub.boot [])
              Stub.credential tt eq_refl)
    as (Ht & _ & _ & _ & Htr & Hl).
  split; [exact Ht |]. rewrite (Hl VUndefined), Htr. reflexivity.
Defined.

(** ** The listing endpoint of [src/index.ts] *)

(** X2. [GET /api/listEvents] of [src/index.ts] answers 401 with the
    "Not authenticated" text, and calls nothing, while there is no
    credential.  With one it asks the calendar for at most 5 events, whatever
    the request; a rejection is answered 500 with the reason of the
    rejection, a fulfilled call with the items as the calendar sent them. *)
Theorem index_listEvents_endpoint {E : Externals} :
  forall (w : World),
    (tokens w = None ->
     Index.api_listEvents w
     = (failure 401 (lit "Not authenticated. Visit http://localhost:4153/auth"), w))
    /\ (forall t,
          tokens w = Some t ->
          trace (snd (Index.api_listEvents w))
          = CalList t (list_request (clock w) (VNum 5)) :: trace w
          /\ (forall reason c,
                events_list t (list_request (clock w) (VNum 5)) (remote w)
                = (inl reason, c) ->
                fst (Index.api_listEvents w) = failure 500 reason)
          /\ (forall items c,
                events_list t (list_request (clock w) (VNum 5)) (remote w)
                = (inr items, c) ->
                fst (Index.api_listEvents w) = json (RawEvents items))).
Proof.
  intros w. split.
  - intros H. unfold Index.api_listEvents. now rewrite H.
  - intros t H. unfold Index.api_listEvents.
    rewrite H, list_upcoming_calls. cbv zeta. split; [| split].
    + now destruct (fst (events_list t _ (remote w))).
    + intros reason c Heq. now rewrite Heq.
    + intros items c Heq. now rewrite Heq.
Qed.

Lemma index_listEvents_endpoint_witness :
  fst (Index.api_listEvents (Stub.boot []))
  = failure 401 (lit "Not authenticated. Visit http://localhost:4153/auth")
  /\ trace (snd (Index.api_listEvents (Stub.signed_in [])))
     = [CalList Stub.credential (@list_request Stub.externals 1000 (VNum 5))].
Proof.
  destruct (index_listEvents_endpoint (Stub.boot [])) as [Habsent _].
  destruct (index_listEvents_endpoint (Stub.signed_in [])) as [_ Hpresent].
  destruct (Hpresent Stub.credential eq_refl) as (Htr & _).
  split; [now rewrite (Habsent eq_refl) | exact Htr].
Defined.

(** ** Trimming *)

Lemma trimStart_blank_prefix p s :
  blank p = true -> trimStart (p ++ s) = trimStart s.
Proof.
  induction p as [| c p IH]; simpl; [reflexivity |].
  intros H. apply andb_true_iff in H as [Hc Hp]. rewrite Hc. now apply IH.
Qed.

Lemma trimStart_clean s : starts_clean s = true -> trimStart s = s.
Proof.
  destruct s as [| c s]; simpl; [reflexivity |].
  intros H. apply negb_true_iff in H. now rewrite H.
Qed.

Lemma trimStart_starts_clean s : starts_clean (trimStart s) = true.
Proof.
  induction s as [| c s IH]; simpl; [reflexivity |].
  destruct (is_whitespace c) eqn:Hc; [exact IH |]. simpl. now rewrite Hc.
Qed.

Lemma trimStart_blank s : blank s = true -> trimStart s = [].
Proof.
  intros H. rewrite <- (app_nil_r s). now rewrite trimStart_blank_prefix.
Qed.

(** Dropping leading whitespace never reaches past a character that is not
    whitespace. *)
Lemma trimStart_keeps_last l c :
  is_whitespace c = false -> exists l', trimStart (l ++ [c]) = l' ++ [c].
Proof.
  intros Hc. induction l as [| x l [l' IH]]; simpl.
  - rewrite Hc. now exists [].
  - destruct (is_whitespace x).
    + now exists l'.
    + now exists (x :: l).
Qed.

Lemma blank_rev s : blank (rev s) = blank s.
Proof.
  unfold blank. induction s as [| c s IH]; simpl; [reflexivity |].
  rewrite forallb_app, IH. simpl. rewrite andb_true_r. apply andb_comm.
Qed.

Lemma trimEnd_blank_suffix s p : blank p = true -> trimEnd (s ++ p) = trimEnd s.
Proof.
  intros H. unfold trimEnd. rewrite rev_app_distr.
  rewrite trimStart_blank_prefix; [reflexivity |]. now rewrite blank_rev.
Qed.

Lemma trimEnd_clean s : starts_clean (rev s) = true -> trimEnd s = s.
Proof.
  intros H. unfold trimEnd. rewrite (trimStart_clean _ H). apply rev_involutive.
Qed.

Lemma trimEnd_starts_clean s :
  starts_clean s = true -> starts_clean (trimEnd s) = true.
Proof.
  destruct s as [| c s]; [reflexivity |]. simpl. intros H.
  apply negb_true_iff in H. unfold trimEnd. simpl rev.
  destruct (trimStart_keeps_last (rev s) c H) as [l' Hl]. rewrite Hl.
  rewrite rev_app_distr. simpl. now rewrite H.
Qed.

Lemma trim_clean s : clean (trim s) = true.
Proof.
  unfold clean, trim. apply andb_true_iff. split.
  - apply trimEnd_starts_clean, trimStart_starts_clean.
  - unfold trimEnd. rewrite rev_involutive. apply trimStart_starts_clean.
Qed.

Lemma trim_of_clean s : clean s = true -> trim s = s.
Proof.
  unfold clean, trim. intros H. apply andb_true_iff in H as [H1 H2].
  rewrite (trimStart_clean _ H1). now apply trimEnd_clean.
Qed.

Lemma trim_blank s : blank s = true -> trim s = [].
Proof. intros H. unfold trim. now rewrite (trimStart_blank _ H). Qed.

Lemma trim_padded p1 s p2 :
  blank p1 = true -> blank p2 = true -> clean s = true ->
  trim (p1 ++ s ++ p2) = s.
Proof.
  intros H1 H2 Hs. unfold trim. rewrite (trimStart_blank_prefix _ _ H1).
  apply andb_true_iff in Hs as [Hs1 Hs2].
  destruct s as [| c s].
  - simpl. now rewrite (trimStart_blank _ H2).
  - rewrite trimStart_clean.
    + rewrite (trimEnd_blank_suffix _ _ H2). now apply trimEnd_clean.
    + exact Hs1.
Qed.

Lemma vocabulary_clean label : In label vocabulary -> clean label = true.
Proof.
  intros [<- | [<- | [<- | [<- | []]]]]; reflexivity.
Qed.

Lemma in_vocabulary_In i : in_vocabulary (Some i) = true <-> In i vocabulary.
Proof.
  unfold in_vocabulary. rewrite existsb_exists. split.
  - intros (x & Hx & Heq). apply jsstring_eqb_eq in Heq. now subst.
  - intros H. exists i. split; [exact H | apply jsstring_eqb_refl].
Qed.

(** X3. [trim] returns a string with no whitespace at either end, returns a
    string that has none unchanged (so trimming twice is trimming once), and
    returns the empty string for whitespace only.  Hence a label of the
    vocabulary that the classifier wraps in any whitespace is classified as
    the bare label, and a label is recognised only when the trimmed text is
    exactly one of the four. *)
Theorem classification_ignores_padding {E : Externals} :
  (forall s, clean (trim s) = true /\ trim (trim s) = trim s)
  /\ (forall s, blank s = true -> trim s = [])
  /\ (forall p1 s p2,
        blank p1 = true -> blank p2 = true -> clean s = true ->
        trim (p1 ++ s ++ p2) = s)
  /\ (forall instruction message w p1 label p2 w1,
        In label vocabulary -> blank p1 = true -> blank p2 = true ->
        openai_chat_completions_create (messages instruction message) w
        = (inr (Some (p1 ++ label ++ p2)), w1) ->
        classify instruction message w = (inr (Some label), w1))
  /\ (forall content,
        in_vocabulary (option_map trim content) = true <->
        exists s, content = Some s /\ In (trim s) vocabulary).
Proof.
  split; [| split; [| split; [| split]]].
  - intros s. split; [apply trim_clean | apply trim_of_clean, trim_clean].
  - exact trim_blank.
  - exact trim_padded.
  - intros instruction message w p1 label p2 w1 Hin H1 H2 H.
    rewrite (classify_fulfilled instruction message w _ w1 H). simpl.
    now rewrite (trim_padded p1 label p2 H1 H2 (vocabulary_clean label Hin)).
  - intros [s |]; simpl option_map.
    + rewrite in_vocabulary_In. split.
      * intros H. now exists s.
      * intros (s' & Heq & H). now injection Heq as ->.
    + split; [discriminate |]. intros (s & Heq & _). discriminate.
Qed.

Lemma classification_ignores_padding_witness :
  fst (classify classifier_instruction None
         (Stub.signed_in [inr (Some ([10; 32]%N ++ lit "update_event" ++ [9; 160; 13]%N))]))
  = inr (Some (lit "update_event")).
Proof.
  destruct (@classification_ignores_padding Stub.externals)
    as (_ & _ & _ & Hclassify & _).
  erewrite (Hclassify classifier_instruction None _ [10; 32]%N
              (lit "update_event") [9; 160; 13]%N);
    [reflexivity | | reflexivity | reflexivity | reflexivity].
  right. right. now left.
Defined.

(** ** The credential slot across requests *)

Section SlotFacts.
Context {E : Externals}.

Lemma keeps_ret {A} (a : A) : keeps (ret a).
Proof. intros w. now split. Qed.

Lemma keeps_throw {A} (e : exn) : keeps (@throw E A e).
Proof. intros w. now split. Qed.

Lemma keeps_bind {A B} (m : M A) (k : A -> M B) :
  keeps m -> (forall a, keeps (k a)) -> keeps (bind m k).
Proof.
  intros Hm Hk w. unfold bind. specialize (Hm w).
  destruct (m w) as [[e | a] w1]; [exact Hm |].
  specialize (Hk a w1). simpl in Hm. destruct Hm as [<- <-]. exact Hk.
Qed.

Lemma keeps_calendar_call {Req Res} mk f (r : Req) :
  keeps (@calendar_call E Req Res mk f r).
Proof.
  intros w. unfold calendar_call.
  destruct (credentials w) as [a |] eqn:Ha.
  - destruct (f a r (remote w)) as [res c]. simpl. now split.
  - simpl. now split.
Qed.

Lemma keeps_Date_toISOString x : keeps (Date_toISOString x).
Proof.
  unfold Date_toISOString.
  destruct (new_Date_of x); [apply keeps_ret | apply keeps_throw].
Qed.

Lemma keeps_optional_time x : keeps (optional_time x).
Proof.
  unfold optional_time. destruct (nonempty x); [| apply keeps_ret].
  apply keeps_bind; [apply keeps_Date_toISOString |].
  intros t. apply keeps_ret.
Qed.

Lemma keeps_new_Date : keeps new_Date.
Proof. intros w. now split. Qed.

Lemma keeps_completion r : keeps (openai_chat_completions_create r).
Proof.
  intros w. destruct (completion_effect r w) as (Ht & Hc & _). now split.
Qed.

Lemma keeps_classify instruction message : keeps (classify instruction message).
Proof.
  unfold classify. apply keeps_bind; [apply keeps_completion |].
  intros content. apply keeps_ret.
Qed.

Lemma keeps_fallback message : keeps (fallback message).
Proof.
  unfold fallback. apply keeps_bind; [apply keeps_completion |].
  intros reply. apply keeps_ret.
Qed.

Lemma slot_kept_refl w : slot_kept w w.
Proof. now split. Qed.

Lemma slot_kept_trans w w1 w2 :
  slot_kept w w1 -> slot_kept w1 w2 -> slot_kept w w2.
Proof.
  intros [Ht Hc] [Ht' Hc']. split; [congruence |].
  intros H. apply Hc'. now apply Hc.
Qed.

Lemma keeps_slot_kept {A} (m : M A) w : keeps m -> slot_kept w (snd (m w)).
Proof.
  intros Hm. destruct (Hm w) as [Ht Hc]. split; [exact Ht |]. congruence.
Qed.

(** The opening of every adapter function, then [rest]. *)
Lemma adapter_slot_kept {A} (rest : M A) w :
  keeps rest ->
  slot_kept w
    (snd (bind require_tokens
            (fun t => bind (setCredentials t) (fun _ => rest)) w)).
Proof.
  intros Hrest. unfold bind, require_tokens.
  destruct (tokens w) as [t |] eqn:Ht; simpl.
  - destruct (Hrest (holding t w)) as [Ht' Hc'].
    unfold holding in *. simpl in *.
    destruct (rest _) as [r w']. simpl in *. split; [congruence |].
    intros _. congruence.
  - apply slot_kept_refl.
Qed.

Lemma listEvents_slot_kept v w : slot_kept w (snd (listEvents v w)).
Proof.
  unfold listEvents. apply adapter_slot_kept.
  apply keeps_bind; [apply keeps_new_Date |]. intros now.
  apply keeps_bind; [apply keeps_calendar_call |]. intros r. apply keeps_ret.
Qed.

Lemma createEvent_slot_kept s a b w : slot_kept w (snd (createEvent s a b w)).
Proof.
  unfold createEvent. apply adapter_slot_kept.
  apply keeps_bind; [apply keeps_Date_toISOString |]. intros x.
  apply keeps_bind; [apply keeps_Date_toISOString |]. intros y.
  apply keeps_bind; [apply keeps_calendar_call |]. intros r. apply keeps_ret.
Qed.

Lemma updateEvent_slot_kept i s a b w :
  slot_kept w (snd (updateEvent i s a b w)).
Proof.
  unfold updateEvent. apply adapter_slot_kept.
  apply keeps_bind; [apply keeps_optional_time |]. intros x.
  apply keeps_bind; [apply keeps_optional_time |]. intros y.
  apply keeps_bind; [apply keeps_calendar_call |]. intros r. apply keeps_ret.
Qed.

Lemma deleteEvent_slot_kept i w : slot_kept w (snd (deleteEvent i w)).
Proof.
  unfold deleteEvent. apply adapter_slot_kept.
  apply keeps_bind; [apply keeps_calendar_call |]. intros r. apply keeps_ret.
Qed.

Lemma snd_bind_ret {A B} (m : M A) (f : A -> B) w :
  snd (bind m (fun a => ret (f a)) w) = snd (m w).
Proof. unfold bind, ret. now destruct (m w) as [[e | a] w']. Qed.

Lemma snd_try_catch {A} (m : M A) (h : A) w : snd (try_catch m h w) = snd (m w).
Proof. unfold try_catch. now destruct (m w) as [[e | a] w']. Qed.

Lemma dispatch_slot_kept intent message w :
  slot_kept w (snd (dispatch intent message w)).
Proof.
  unfold dispatch.
  destruct (intent_is intent "list_events").
  { rewrite snd_bind_ret. apply listEvents_slot_kept. }
  destruct (intent_is intent "create_event").
  { unfold create_placeholder. rewrite snd_bind_ret. apply createEvent_slot_kept. }
  destruct (intent_is intent "update_event"); [apply slot_kept_refl |].
  destruct (intent_is intent "delete_event"); [apply slot_kept_refl |].
  apply keeps_slot_kept, keeps_fallback.
Qed.

Lemma api_chat_slot_kept body w : slot_kept w (snd (api_chat body w)).
Proof.
  unfold api_chat. rewrite snd_try_catch. unfold bind.
  pose proof (keeps_slot_kept _ w
                (keeps_classify classifier_instruction (body_message body))) as Hc.
  destruct (classify classifier_instruction (body_message body) w)
    as [[e | intent] w1]; [exact Hc |].
  apply slot_kept_trans with w1; [exact Hc | apply dispatch_slot_kept].
Qed.

Lemma api_deleteEvent_slot_kept body w :
  slot_kept w (snd (api_deleteEvent body w)).
Proof.
  unfold api_deleteEvent. rewrite snd_try_catch.
  destruct (body_eventId body) as [[| c i] |]; try apply slot_kept_refl.
  rewrite snd_bind_ret. apply deleteEvent_slot_kept.
Qed.

(** One request: the slot changes only when an exchange is fulfilled, and
    then to the credential the provider issued. *)
Lemma app_slot req w :
  slot_kept w (snd (app req w))
  \/ exists code t p,
       req = GET_oauth2callback code
       /\ getToken code (provider w) = (inr t, p)
       /\ tokens (snd (app req w)) = Some t
       /\ credentials (snd (app req w)) = Some t.
Proof.
  destruct req as [| code | body | body | body | body | body];
    unfold app, sent.
  - left. unfold auth. simpl. now split.
  - unfold oauth2callback.
    destruct (getToken code (provider w)) as [[reason | t] p] eqn:Hg.
    + left. simpl. now split.
    + right. exists code, t, p. now repeat split.
  - left. pose proof (listEvents_slot_kept
                        (or_else (body_maxResults body) (VNum 5)) w) as H.
    unfold api_listEvents.
    rewrite <- (snd_bind_ret _ (fun events => json (Events events))) in H.
    rewrite <- (snd_try_catch _ (failure 500 (lit "Failed to fetch events"))) in H.
    now destruct (try_catch _ _ w).
  - left. pose proof (createEvent_slot_kept (body_summary body)
                        (body_start body) (body_end body) w) as H.
    unfold api_createEvent.
    rewrite <- (snd_bind_ret _ (fun event => json (WrittenEvent event))) in H.
    rewrite <- (snd_try_catch _ (failure 500 (lit "Failed to create event"))) in H.
    now destruct (try_catch _ _ w).
  - left. pose proof (updateEvent_slot_kept (body_eventId body)
                        (body_summary body) (body_start body) (body_end body) w)
      as H.
    unfold api_updateEvent.
    rewrite <- (snd_bind_ret _ (fun event => json (WrittenEvent event))) in H.
    rewrite <- (snd_try_catch _ (failure 500 (lit "Failed to update event"))) in H.
    now destruct (try_catch _ _ w).
  - left. pose proof (api_deleteEvent_slot_kept body w) as H.
    now destruct (api_deleteEvent body w).
  - left. pose proof (api_chat_slot_kept body w) as H.
    now destruct (api_chat body w).
Qed.

End SlotFacts.

(** X4. Serving requests never empties the credential slot: a request leaves
    [tokens] as it is unless it is an exchange that the provider fulfils, and
    then [tokens] holds the credential issued.  So a credential, once stored,
    stays until a later exchange replaces it; and if the OAuth client holds
    what the slot holds (as when the process starts), it still does after any
    sequence of requests. *)
Theorem credential_slot_across_requests {E : Externals} :
  (forall req w,
      tokens (snd (app req w)) = tokens w
      \/ exists code t p,
           req = GET_oauth2callback code
           /\ getToken code (provider w) = (inr t, p)
           /\ tokens (snd (app req w)) = Some t)
  /\ (forall reqs w, tokens w <> None -> tokens (serve reqs w) <> None)
  /\ (forall reqs w,
        credentials w = tokens w ->
        credentials (serve reqs w) = tokens (serve reqs w)).
Proof.
  split; [| split].
  - intros req w. destruct (app_slot req w) as [[H _] | (code & t & p & H)].
    + now left.
    + right. exists code, t, p. tauto.
  - induction reqs as [| req reqs IH]; intros w H; simpl; [exact H |].
    apply IH. destruct (app_slot req w) as [[Ht _] | (code & t & p & _ & _ & Ht & _)];
      congruence.
  - induction reqs as [| req reqs IH]; intros w H; simpl; [exact H |].
    apply IH. destruct (app_slot req w) as [[_ Hc] | (code & t & p & _ & _ & Ht & Hc)].
    + now apply Hc.
    + congruence.
Qed.

Lemma credential_slot_across_requests_witness :
  let reqs := [ GET_oauth2callback (Some (lit "4/0Ab"));
                POST_deleteEvent (Stub.body VUndefined (Some (lit "zz")) None None None None);
                GET_oauth2callback None;
                POST_chat Stub.empty_body ] in
  let w := serve reqs (Stub.boot []) in
  tokens w = Some Stub.credential /\ credentials w = tokens w.
Proof.
  intros reqs w.
  destruct (@credential_slot_across_requests Stub.externals) as (_ & _ & Hclient).
  split; [reflexivity |].
  exact (Hclient reqs (Stub.boot []) eq_refl).
Defined.

(** ** Which calls an endpoint makes *)

Section Calls.
Context {E : Externals}.

Lemma listEvents_trace v w :
  trace (snd (listEvents v w))
  = match tokens w with
    | Some t => [CalList t (list_request (clock w) (default_arg v (VNum 5)))]
    | None => []
    end ++ trace w.
Proof.
  destruct (tokens w) as [t |] eqn:Ht.
  - rewrite (listEvents_authenticated w v t Ht). cbv zeta.
    now destruct (fst (events_list t _ (remote w))).
  - now rewrite (listEvents_unauthenticated w v Ht).
Qed.

Lemma createEvent_trace summary start end_ w :
  trace (snd (createEvent summary start end_ w))
  = match tokens w, new_Date_of start, new_Date_of end_ with
    | Some t, Some s, Some e => [CalInsert t (insert_request summary s e)]
    | _, _, _ => []
    end ++ trace w.
Proof.
  destruct (tokens w) as [t |] eqn:Ht.
  2:{ now rewrite (createEvent_unauthenticated w _ _ _ Ht). }
  destruct (new_Date_of start) as [s |] eqn:Hs.
  2:{ now rewrite (createEvent_invalid w _ _ _ t Ht (or_introl Hs)). }
  destruct (new_Date_of end_) as [e |] eqn:He.
  2:{ now rewrite (createEvent_invalid w _ _ _ t Ht (or_intror He)). }
  rewrite (createEvent_authenticated w _ _ _ t s e Ht Hs He). cbv zeta.
  now destruct (fst (events_insert t _ (remote w))).
Qed.

Lemma updateEvent_trace eventId summary start end_ w :
  trace (snd (updateEvent eventId summary start end_ w))
  = match tokens w with
    | Some t =>
        if usable start && usable end_
        then [CalPatch t (patch_request eventId summary start end_)]
        else []
    | None => []
    end ++ trace w.
Proof.
  destruct (updateEvent eventId summary start end_ w) as [r w'] eqn:H.
  simpl snd. destruct (tokens w) as [t |] eqn:Ht.
  2:{ now destruct (updateEvent_stopped w _ _ _ _ r w' (or_introl Ht) H). }
  destruct (usable start) eqn:Hs.
  2:{ now destruct (updateEvent_stopped w _ _ _ _ r w'
                      (or_intror (or_introl Hs)) H). }
  destruct (usable end_) eqn:He.
  2:{ now destruct (updateEvent_stopped w _ _ _ _ r w'
                      (or_intror (or_intror He)) H). }
  rewrite (updateEvent_authenticated w _ _ _ _ t Ht Hs He) in H. cbv zeta in H.
  destruct (fst (events_patch t _ (remote w))); now injection H as _ <-.
Qed.

Lemma deleteEvent_trace eventId w :
  trace (snd (deleteEvent eventId w))
  = match tokens w with
    | Some t => [CalDelete t {| dr_calendarId := primary; dr_eventId := eventId |}]
    | None => []
    end ++ trace w.
Proof.
  destruct (tokens w) as [t |] eqn:Ht.
  - rewrite (deleteEvent_authenticated w _ t Ht). cbv zeta.
    now destruct (fst (events_delete t _ (remote w))).
  - now rewrite (deleteEvent_unauthenticated w _ Ht).
Qed.

(** What [dispatch] adds to the trace. *)
Lemma dispatch_trace intent message w :
  exists extra,
    trace (snd (dispatch intent message w)) = extra ++ trace w
    /\ (extra = []
        \/ (exists t, extra = [CalList t (list_request (clock w) (VNum 5))])
        \/ (exists t s e,
              extra = [CalInsert t (insert_request (Some (lit "New Event")) s e)])
        \/ extra = [LlmComplete (messages chatbot_instruction message)]).
Proof.
  unfold dispatch.
  destruct (intent_is intent "list_events").
  { rewrite snd_bind_ret, listEvents_trace. eexists. split; [reflexivity |].
    destruct (tokens w) as [t |]; [right; left; now exists t | now left]. }
  destruct (intent_is intent "create_event").
  { unfold create_placeholder. rewrite snd_bind_ret, createEvent_trace.
    eexists. split; [reflexivity |].
    destruct (tokens w) as [t |]; [| now left].
    destruct (new_Date_of _) as [s |]; [| now left].
    destruct (new_Date_of _) as [e |]; [| now left].
    right. right. left. now exists t, s, e. }
  destruct (intent_is intent "update_event"); [exists []; split; auto |].
  destruct (intent_is intent "delete_event"); [exists []; split; auto |].
  destruct (fallback_effect message w) as (_ & _ & _ & _ & Ht).
  exists [LlmComplete (messages chatbot_instruction message)]. split; auto.
Qed.

Lemma legacy_dispatch_trace intent message w :
  exists extra,
    trace (snd (Legacy.dispatch intent message w)) = extra ++ trace w
    /\ (extra = []
        \/ (exists t, extra = [CalList t (list_request (clock w) (VNum 5))])
        \/ (exists t s e,
              extra = [CalInsert t (insert_request (Some (lit "New Event")) s e)])
        \/ extra = [LlmComplete (messages chatbot_instruction message)]).
Proof.
  unfold Legacy.dispatch.
  destruct (intent_is intent "list_events").
  { rewrite snd_bind_ret, listEvents_trace. eexists. split; [reflexivity |].
    destruct (tokens w) as [t |]; [right; left; now exists t | now left]. }
  destruct (intent_is intent "create_event").
  { unfold create_placeholder. rewrite snd_bind_ret, createEvent_trace.
    eexists. split; [reflexivity |].
    destruct (tokens w) as [t |]; [| now left].
    destruct (new_Date_of _) as [s |]; [| now left].
    destruct (new_Date_of _) as [e |]; [| now left].
    right. right. left. now exists t, s, e. }
  destruct (intent_is intent "update_event"); [exists []; split; auto |].
  destruct (fallback_effect message w) as (_ & _ & _ & _ & Ht).
  exists [LlmComplete (messages chatbot_instruction message)]. split; auto.
Qed.

(** A chat handler built from a classification and a dispatch. *)
Lemma chat_trace instruction (d : option jsstring -> option jsstring -> M Response)
    message w :
  (forall intent w1,
      exists extra,
        trace (snd (d intent message w1)) = extra ++ trace w1
        /\ (extra = []
            \/ (exists t, extra = [CalList t (list_request (clock w1) (VNum 5))])
            \/ (exists t s e,
                  extra = [CalInsert t (insert_request (Some (lit "New Event")) s e)])
            \/ extra = [LlmComplete (messages chatbot_instruction message)])) ->
  exists extra,
    trace (snd (try_catch (bind (classify instruction message)
                             (fun intent => d intent message))
                  Chat_failed w))
    = extra ++ LlmComplete (messages instruction message) :: trace w
    /\ (extra = []
        \/ (exists t, extra = [CalList t (list_request (clock w) (VNum 5))])
        \/ (exists t s e,
              extra = [CalInsert t (insert_request (Some (lit "New Event")) s e)])
        \/ extra = [LlmComplete (messages chatbot_instruction message)]).
Proof.
  intros Hd. rewrite snd_try_catch. unfold bind.
  destruct (classify_effect instruction message w) as (_ & _ & Hclock & _ & Htr).
  destruct (classify instruction message w) as [[e | intent] w1]; simpl in *.
  - exists []. split; auto.
  - destruct (Hd intent w1) as (extra & Hx & Hshape). exists extra.
    rewrite Hx, Htr. split; [reflexivity |]. now rewrite <- Hclock.
Qed.

End Calls.

(** X6. Whatever the classifier answers, a chat request makes the
    classification call and after it at most one more call: a list with the
    default cap, the insert of the placeholder event, or the fallback
    completion.  It never patches and never deletes, in the full server and
    in the earlier one. *)
Theorem chat_makes_at_most_one_more_call {E : Externals} :
  forall (body : Body) (w : World),
    (exists extra,
        trace (snd (api_chat body w))
        = extra ++ LlmComplete (messages classifier_instruction (body_message body))
                     :: trace w
        /\ (extra = []
            \/ (exists t, extra = [CalList t (list_request (clock w) (VNum 5))])
            \/ (exists t s e,
                  extra = [CalInsert t (insert_request (Some (lit "New Event")) s e)])
            \/ extra = [LlmComplete (messages chatbot_instruction (body_message body))]))
    /\ (exists extra,
          trace (snd (Legacy.api_chat body w))
          = extra ++ LlmComplete (messages Legacy.classifier_instruction
                                    (body_message body))
                       :: trace w
          /\ (extra = []
              \/ (exists t, extra = [CalList t (list_request (clock w) (VNum 5))])
              \/ (exists t s e,
                    extra = [CalInsert t (insert_request (Some (lit "New Event")) s e)])
              \/ extra = [LlmComplete (messages chatbot_instruction (body_message body))])).
Proof.
  intros body w. split.
  - apply (chat_trace classifier_instruction dispatch).
    intros intent w1. apply dispatch_trace.
  - apply (chat_trace Legacy.classifier_instruction Legacy.dispatch).
    intros intent w1. apply legacy_dispatch_trace.
Qed.

(** ** Creating *)

(** X7. With a credential, [createEvent] reads both dates before it calls
    the calendar.  When either is missing or not a valid date it throws a
    RangeError and nothing is called: the remote calendar and the trace are
    as before.  When both are valid it sends the insert, whatever the order
    of the two dates; a rejection is thrown, and a fulfilled insert is
    answered with the title and the link of the event the calendar returned. *)
Theorem createEvent_reads_dates_first {E : Externals} :
  forall (summary start end_ : option jsstring) (w : World) (t : Tokens),
    tokens w = Some t ->
    (new_Date_of start = None \/ new_Date_of end_ = None ->
     fst (createEvent summary start end_ w) = inl RangeError
     /\ remote (snd (createEvent summary start end_ w)) = remote w
     /\ trace (snd (createEvent summary start end_ w)) = trace w)
    /\ (forall s e,
          new_Date_of start = Some s -> new_Date_of end_ = Some e ->
          trace (snd (createEvent summary start end_ w))
          = CalInsert t (insert_request summary s e) :: trace w
          /\ (forall reason c,
                events_insert t (insert_request summary s e) (remote w)
                = (inl reason, c) ->
                fst (createEvent summary start end_ w) = inl (Rejected reason))
          /\ (forall ev c,
                events_insert t (insert_request summary s e) (remote w)
                = (inr ev, c) ->
                fst (createEvent summary start end_ w)
                = inr {| success := true; w_summary := ev_summary ev;
                         link := ev_htmlLink ev |}
                /\ remote (snd (createEvent summary start end_ w)) = c)).
Proof.
  intros summary start end_ w t Ht. split.
  - intros Hbad. rewrite (createEvent_invalid w _ _ _ t Ht Hbad). now repeat split.
  - intros s e Hs He.
    rewrite (createEvent_authenticated w _ _ _ t s e Ht Hs He). cbv zeta.
    split; [| split].
    + now destruct (fst (events_insert t _ (remote w))).
    + intros reason c Hi. now rewrite Hi.
    + intros ev c Hi. now rewrite Hi.
Qed.

Lemma createEvent_reads_dates_first_witness :
  let w := Stub.signed_in [] in
  fst (createEvent (Some (lit "Demo")) (Some (lit "next tuesday"))
         (Some (lit "2025-09-25T11:00:00")) w) = inl RangeError
  /\ trace (snd (createEvent (Some (lit "Demo")) (Some (lit "2025-09-25T11:00:00"))
                   (Some (lit "2025-09-25T10:00:00")) w))
     = [CalInsert Stub.credential
          (@insert_request Stub.externals (Some (lit "Demo"))
             1758798000000 1758794400000)].
Proof.
  intros w.
  destruct (createEvent_reads_dates_first (Some (lit "Demo"))
              (Some (lit "next tuesday")) (Some (lit "2025-09-25T11:00:00"))
              w Stub.credential eq_refl) as [Hbad _].
  destruct (createEvent_reads_dates_first (Some (lit "Demo"))
              (Some (lit "2025-09-25T11:00:00")) (Some (lit "2025-09-25T10:00:00"))
              w Stub.credential eq_refl) as [_ Hgood].
  split.
  - apply Hbad. left. reflexivity.
  - apply (Hgood 1758798000000 1758794400000); reflexivity.
Defined.

(** ** The tool, call by call *)

(** X8. A call of the [listEvents] tool whose [maxResults] is neither
    absent nor a number is refused before the handler runs: nothing is
    called.  Otherwise the handler answers, and its answer is an error
    exactly in two cases: no credential is stored (the "Not authenticated"
    text, nothing called), or the calendar rejects the list (the text "Error
    fetching events: " and the reason).  A fulfilled list without items is
    answered "No upcoming events found.". *)
Theorem tool_call_outcomes {E : Externals} :
  forall (maxResults : value) (w : World),
    (Index.parse (Index.z_number_optional_default 5) maxResults = None <->
     maxResults <> VUndefined /\ forall n, maxResults <> VNum n)
    /\ (Index.parse (Index.z_number_optional_default 5) maxResults = None ->
        Index.callTool Index.mcp (lit "listEvents") maxResults w = (None, w))
    /\ (forall v,
          Index.parse (Index.z_number_optional_default 5) maxResults = Some v ->
          exists r w',
            Index.callTool Index.mcp (lit "listEvents") maxResults w = (Some r, w')
            /\ (tokens w = None ->
                r = {| Index.content_text :=
                         lit "Not authenticated. Visit http://localhost:4153/auth";
                       Index.isError := true |}
                /\ w' = w)
            /\ (forall t,
                  tokens w = Some t ->
                  (forall reason c,
                      events_list t (list_request (clock w) (or_else v (VNum 5)))
                        (remote w) = (inl reason, c) ->
                      r = {| Index.content_text :=
                               lit "Error fetching events: " ++ reason;
                             Index.isError := true |})
                  /\ (forall items c,
                        events_list t (list_request (clock w) (or_else v (VNum 5)))
                          (remote w) = (inr items, c) ->
                        Index.isError r = false
                        /\ (items_or_empty items = [] ->
                            Index.content_text r
                            = lit "No upcoming events found.")))).
Proof.
  intros maxResults w. split; [| split].
  - split.
    + intros H. split; [intros -> | intros n ->]; simpl in H; discriminate H.
    + intros [H1 H2]. destruct maxResults; try reflexivity.
      * now contradiction H1.
      * now contradiction (H2 n).
  - intros Hp. unfold Index.callTool.
    replace (find _ (Index.registeredTools Index.mcp))
      with (Some Index.listEvents_tool) by reflexivity.
    simpl Index.inputSchema. simpl snd. now rewrite Hp.
  - intros v Hp. rewrite (callTool_listEvents maxResults v w Hp).
    destruct (Index.listEvents_handler v w) as [r w'] eqn:Hh.
    exists r, w'. split; [reflexivity |].
    unfold Index.listEvents_handler in Hh. split.
    + intros Ht. rewrite Ht in Hh. now injection Hh as <- <-.
    + intros t Ht. rewrite Ht, list_upcoming_calls in Hh. cbv zeta in Hh.
      split.
      * intros reason c Hl. rewrite Hl in Hh. simpl in Hh.
        now injection Hh as <- _.
      * intros items c Hl. rewrite Hl in Hh. simpl in Hh.
        injection Hh as <- _. split; [reflexivity |].
        intros He. simpl. now rewrite He.
Qed.

Lemma tool_call_outcomes_witness :
  let w := Stub.signed_in [] in
  Index.callTool Index.mcp (lit "listEvents") (VStr (lit "3")) w = (None, w)
  /\ fst (Index.callTool Index.mcp (lit "listEvents") (VNum (-1)) w)
     = Some {| Index.content_text :=
                 lit "Error fetching events: Invalid value for maxResults";
               Index.isError := true |}.
Proof.
  intros w.
  destruct (tool_call_outcomes (VStr (lit "3")) w) as (_ & Hrefused & _).
  destruct (tool_call_outcomes (VNum (-1)) w) as (_ & _ & Hrun).
  split; [now apply Hrefused |].
  destruct (Hrun (VNum (-1)) eq_refl) as (r & w' & Hcall & _ & Hcred).
  rewrite Hcall. simpl fst. f_equal.
  destruct (Hcred Stub.credential eq_refl) as [Hrej _].
  now apply (Hrej (lit "Invalid value for maxResults") Stub.calendar).
Defined.

(** ** The chat page *)

Lemma show_events_window events :
  forall p,
    Chatbot.chatWindow (Chatbot.show_events events p)
    = Chatbot.chatWindow p ++ map event_message events
    /\ Chatbot.userInput (Chatbot.show_events events p) = Chatbot.userInput p.
Proof.
  unfold Chatbot.show_events.
  induction events as [| ev events IH]; intros p; simpl.
  - now rewrite app_nil_r.
  - destruct (IH (Chatbot.appendMessage (Chatbot.event_text ev) Chatbot.bot true
                    (id ev) p)) as [Hw Hi].
    rewrite Hw, Hi. simpl. now rewrite <- app_assoc.
Qed.

(** What [submit] does when it does something. *)
Lemma submit_sends p req p1 :
  Chatbot.submit p = Some (req, p1) ->
  trim (Chatbot.userInput p) <> []
  /\ req = POST_chat (Chatbot.body_of None None None None
                        (Some (trim (Chatbot.userInput p))))
  /\ Chatbot.userInput p1 = []
  /\ Chatbot.chatWindow p1
     = (Chatbot.chatWindow p ++ [say Chatbot.user (trim (Chatbot.userInput p))])
         ++ [say Chatbot.bot Chatbot.placeholder].
Proof.
  unfold Chatbot.submit.
  destruct (trim (Chatbot.userInput p)) as [| c text]; [discriminate |].
  intros H. injection H as <- <-. now repeat split.
Qed.

(** The window after an answer that parsed, when the placeholder is the last
    message. *)
Lemma answered_window data p l :
  Chatbot.res_json data = Some data ->
  Chatbot.chatWindow p = l ++ [say Chatbot.bot Chatbot.placeholder] ->
  Chatbot.chatWindow (Chatbot.answered (Chatbot.Resolved data) p)
  = l ++ match Chatbot.reply_of data with
         | Chatbot.ReplyArray events => map event_message events
         | Chatbot.ReplyString (c :: s) => [say Chatbot.bot (c :: s)]
         | _ => [say Chatbot.bot No_response]
         end.
Proof.
  intros Hj Hw. unfold Chatbot.answered. rewrite Hj.
  destruct (Chatbot.chatWindow p) as [| m ms] eqn:Hp.
  { now destruct l. }
  rewrite Hw, removelast_last.
  destruct (Chatbot.reply_of data) as [events | [| c s] |].
  - now destruct (show_events_window events
                    {| Chatbot.chatWindow := l;
                       Chatbot.userInput := Chatbot.userInput p |}).
  - reflexivity.
  - reflexivity.
  - reflexivity.
Qed.

(** X10. Submitting a blank input does nothing: no message, no request.
    Otherwise the page sends the trimmed text to the chat endpoint, clears
    the input, and appends the user's message and a "..." placeholder.  When
    the answer arrives as JSON the placeholder is replaced: by one message
    per event when the reply is a list, by the reply when it is a non-empty
    text, and by "No response" otherwise.  When the request fails, or the
    answer is not JSON, the placeholder stays and "Error contacting server."
    is appended after it. *)
Theorem page_submit_outcomes :
  forall (p : Chatbot.Dom),
    (blank (Chatbot.userInput p) = true -> Chatbot.submit p = None)
    /\ (forall req p1,
          Chatbot.submit p = Some (req, p1) ->
          let text := trim (Chatbot.userInput p) in
          let sent := Chatbot.chatWindow p ++ [say Chatbot.user text] in
          text <> []
          /\ req = POST_chat (Chatbot.body_of None None None None (Some text))
          /\ Chatbot.userInput p1 = []
          /\ Chatbot.chatWindow p1 = sent ++ [say Chatbot.bot Chatbot.placeholder]
          /\ (forall data,
                Chatbot.res_json data = Some data ->
                Chatbot.chatWindow (Chatbot.answered (Chatbot.Resolved data) p1)
                = sent ++ match Chatbot.reply_of data with
                          | Chatbot.ReplyArray events => map event_message events
                          | Chatbot.ReplyString (c :: s) => [say Chatbot.bot (c :: s)]
                          | _ => [say Chatbot.bot No_response]
                          end)
          /\ (forall o,
                o = Chatbot.NetworkError
                \/ (exists data, o = Chatbot.Resolved data
                                 /\ Chatbot.res_json data = None) ->
                Chatbot.chatWindow (Chatbot.answered o p1)
                = sent ++ [ say Chatbot.bot Chatbot.placeholder;
                            say Chatbot.bot Chatbot.Error_contacting_server ])).
Proof.
  intros p. split.
  - intros H. unfold Chatbot.submit. now rewrite (trim_blank _ H).
  - intros req p1 H text sent0.
    destruct (submit_sends p req p1 H) as (Hne & Hreq & Hin & Hw).
    repeat split; trivial.
    + intros data Hj. now apply answered_window.
    + intros o [-> | (data & -> & Hj)]; unfold Chatbot.answered;
        [| rewrite Hj]; simpl; rewrite Hw; now rewrite <- app_assoc.
Qed.

Lemma page_submit_outcomes_witness :
  let p := {| Chatbot.chatWindow := [];
              Chatbot.userInput := lit "  what is on my calendar " |} in
  match Chatbot.submit p with
  | Some (req, p1) =>
      req = POST_chat (Chatbot.body_of None None None None
                         (Some (lit "what is on my calendar")))
      /\ Chatbot.chatWindow
           (Chatbot.answered (Chatbot.Resolved (ErrorText (lit "Chat failed"))) p1)
         = [ say Chatbot.user (lit "what is on my calendar");
             say Chatbot.bot No_response ]
      /\ Chatbot.chatWindow (Chatbot.answered Chatbot.NetworkError p1)
         = [ say Chatbot.user (lit "what is on my calendar");
             say Chatbot.bot Chatbot.placeholder;
             say Chatbot.bot Chatbot.Error_contacting_server ]
  | None => False
  end.
Proof.
  intros p.
  destruct (Chatbot.submit p) as [[req p1] |] eqn:H;
    [| vm_compute in H; discriminate].
  destruct (page_submit_outcomes p) as [_ Hsent].
  destruct (Hsent req p1 H) as (_ & Hreq & _ & _ & Hjson & Hfail).
  split; [exact Hreq |]. split.
  - now rewrite (Hjson (ErrorText (lit "Chat failed")) eq_refl).
  - rewrite (Hfail Chatbot.NetworkError (or_introl eq_refl)). reflexivity.
Defined.

(** ** The chat page against the server *)

Section PageAndServer.
Context {E : Externals}.

(** The answers of the chat endpoint: the fixed failure, a list, or a text. *)
Lemma api_chat_answers body w :
  fst (api_chat body w) = Chat_failed
  \/ (exists events, fst (api_chat body w) = json (ReplyEvents events))
  \/ (exists c s, fst (api_chat body w) = json (ReplyText (c :: s))).
Proof.
  unfold api_chat, try_catch, bind.
  destruct (classify classifier_instruction (body_message body) w)
    as [[e | intent] w1]; [now left |].
  unfold dispatch, create_placeholder, fallback, bind, ret.
  destruct (intent_is intent "list_events").
  { destruct (listEvents VUndefined w1) as [[e | events] w2]; [now left |].
    right. left. now exists events. }
  destruct (intent_is intent "create_event").
  { destruct (createEvent _ _ _ w1) as [[e | event] w2]; [now left |].
    right. right. now eexists _, _. }
  destruct (intent_is intent "update_event").
  { right. right. now eexists _, _. }
  destruct (intent_is intent "delete_event").
  { right. right. now eexists _, _. }
  destruct (openai_chat_completions_create _ w1) as [[e | reply] w2];
    [now left |].
  right. right. destruct reply as [[| c r] |]; now eexists _, _.
Qed.

(** The answers of the earlier chat endpoint: never a list. *)
Lemma legacy_api_chat_answers body w :
  fst (Legacy.api_chat body w) = Chat_failed
  \/ exists s, fst (Legacy.api_chat body w) = json (ReplyText s).
Proof.
  unfold Legacy.api_chat, try_catch, bind.
  destruct (classify Legacy.classifier_instruction (body_message body) w)
    as [[e | intent] w1]; [now left |].
  unfold Legacy.dispatch, create_placeholder, fallback, bind, ret.
  destruct (intent_is intent "list_events").
  { destruct (listEvents VUndefined w1) as [[e | events] w2]; [now left |].
    right. now eexists. }
  destruct (intent_is intent "create_event").
  { destruct (createEvent _ _ _ w1) as [[e | event] w2]; [now left |].
    right. now eexists. }
  destruct (intent_is intent "update_event").
  { right. now eexists. }
  destruct (openai_chat_completions_create _ w1) as [[e | reply] w2];
    [now left |].
  right. now eexists.
Qed.

Lemma api_updateEvent_answers body w :
  fst (api_updateEvent body w) = failure 500 (lit "Failed to update event")
  \/ exists event, fst (api_updateEvent body w) = json (WrittenEvent event).
Proof.
  unfold api_updateEvent, try_catch, bind, ret.
  destruct (updateEvent _ _ _ _ w) as [[e | event] w1]; [now left |].
  right. now exists event.
Qed.

Lemma api_createEvent_answers body w :
  fst (api_createEvent body w) = failure 500 (lit "Failed to create event")
  \/ exists event, fst (api_createEvent body w) = json (WrittenEvent event).
Proof.
  unfold api_createEvent, try_catch, bind, ret.
  destruct (createEvent _ _ _ w) as [[e | event] w1]; [now left |].
  right. now exists event.
Qed.

(** What a patch law gives for [updateEvent]: the dates it leaves out. *)
Lemma updateEvent_keeps_omitted_dates eventId summary start end_ w i ev :
  patch_leaves_omitted ->
  stored (remote w) i = Some ev ->
  exists ev',
    stored (remote (snd (updateEvent eventId summary start end_ w))) i = Some ev'
    /\ (start = None -> ev_start ev' = ev_start ev)
    /\ (end_ = None -> ev_end ev' = ev_end ev).
Proof.
  intros Hpatch Hev.
  destruct (updateEvent eventId summary start end_ w) as [r w'] eqn:H.
  simpl snd.
  destruct (tokens w) as [t |] eqn:Ht.
  2:{ destruct (updateEvent_stopped w _ _ _ _ r w' (or_introl Ht) H) as [Hr _].
      rewrite Hr. exists ev. auto. }
  destruct (usable start) eqn:Hs.
  2:{ destruct (updateEvent_stopped w _ _ _ _ r w'
                  (or_intror (or_introl Hs)) H) as [Hr _].
      rewrite Hr. exists ev. auto. }
  destruct (usable end_) eqn:He.
  2:{ destruct (updateEvent_stopped w _ _ _ _ r w'
                  (or_intror (or_intror He)) H) as [Hr _].
      rewrite Hr. exists ev. auto. }
  rewrite (updateEvent_authenticated w _ _ _ _ t Ht Hs He) in H.
  cbv zeta in H.
  destruct (events_patch t (patch_request eventId summary start end_) (remote w))
    as [res c] eqn:Hp.
  assert (Hw' : remote w' = c).
  { simpl in H. destruct res; injection H as _ <-; reflexivity. }
  destruct (Hpatch t _ _ res c i ev Hp Hev) as (ev' & Hev' & _ & Hst & Hen).
  exists ev'. rewrite Hw'. split; [exact Hev' |]. simpl in *.
  split; intros ->; [now apply Hst | now apply Hen].
Qed.

End PageAndServer.

(** X11. A submitted text that the full server classifies as [list_events]
    and lists as [events] ends as the user's message followed by one message
    per event, in order, each with Update and Create Event buttons bound to
    the event's identifier when it has one.  Against the earlier server a
    chat answer is never a list: the placeholder is replaced by one message,
    and that message has no buttons. *)
Theorem page_lists_events_with_buttons {E : Externals} :
  forall (p : Chatbot.Dom) (req : Request) (p1 : Chatbot.Dom) (w : World),
    Chatbot.submit p = Some (req, p1) ->
    let text := trim (Chatbot.userInput p) in
    (forall content w1 events w2,
        openai_chat_completions_create
          (messages classifier_instruction (Some text)) w = (inr content, w1) ->
        option_map trim content = Some (lit "list_events") ->
        listEvents VUndefined w1 = (inr events, w2) ->
        Chatbot.fetch req w = (Some (Chatbot.Resolved (ReplyEvents events)), w2)
        /\ Chatbot.chatWindow
             (Chatbot.answered (Chatbot.Resolved (ReplyEvents events)) p1)
           = Chatbot.chatWindow p
               ++ say Chatbot.user text :: map event_message events)
    /\ (forall body,
          exists reply,
            Chatbot.chatWindow
              (Chatbot.answered
                 (Chatbot.Resolved (payload (fst (Legacy.api_chat body w)))) p1)
            = Chatbot.chatWindow p
                ++ [say Chatbot.user text; say Chatbot.bot reply]).
Proof.
  intros p req p1 w H text.
  destruct (submit_sends p req p1 H) as (Hne & Hreq & Hin & Hw).
  fold text in Hreq, Hw. split.
  - intros content w1 events w2 Hc Hi Hl. split.
    + subst req. unfold Chatbot.fetch, app, sent.
      rewrite (api_chat_classified
                 (Chatbot.body_of None None None None (Some text)) w _ w1
                 (classify_fulfilled _ _ w content w1 Hc)), Hi.
      unfold try_catch, dispatch, bind, ret. rewrite intent_is_label.
      now rewrite Hl.
    + rewrite (answered_window (ReplyEvents events) p1 _ eq_refl Hw).
      simpl. now rewrite <- app_assoc.
  - intros body.
    destruct (legacy_api_chat_answers body w) as [Hf | [s Hs]].
    + rewrite Hf. exists No_response.
      erewrite answered_window; [| reflexivity | exact Hw]. simpl.
      now rewrite <- app_assoc.
    + rewrite Hs. destruct s as [| c s].
      * exists No_response.
        erewrite answered_window; [| reflexivity | exact Hw]. simpl.
        now rewrite <- app_assoc.
      * exists (c :: s).
        erewrite answered_window; [| reflexivity | exact Hw]. simpl.
        now rewrite <- app_assoc.
Qed.

Lemma page_lists_events_with_buttons_witness :
  let p := {| Chatbot.chatWindow := []; Chatbot.userInput := lit "agenda?" |} in
  let w := Stub.signed_in [inr (Some (lit "list_events"))] in
  match Chatbot.submit p with
  | Some (req, p1) =>
      match Chatbot.fetch req w with
      | (Some o, _) =>
          map Chatbot.buttons (Chatbot.chatWindow (Chatbot.answered o p1))
          = [None; Some (lit "b"); Some (lit "d"); Some (lit "a")]
      | _ => False
      end
  | None => False
  end.
Proof.
  intros p w.
  destruct (Chatbot.submit p) as [[req p1] |] eqn:H;
    [| vm_compute in H; discriminate].
  destruct (page_lists_events_with_buttons p req p1 w H) as [Hlist _].
  destruct (listEvents VUndefined
              (snd (openai_chat_completions_create
                      (messages classifier_instruction
                         (Some (trim (Chatbot.userInput p)))) w)))
    as [[e | events] w2] eqn:Hl; [vm_compute in Hl; discriminate |].
  destruct (Hlist (Some (lit "list_events")) _ events w2 eq_refl eq_refl Hl)
    as [Hfetch Hwindow].
  rewrite Hfetch, Hwindow.
  vm_compute in Hl. injection Hl as <- _. reflexivity.
Defined.

(** X12. The page does not look at the status of a response.  When the chat
    endpoint answers with a failure, the page shows "No response"; when the
    update or the create endpoint answers with a failure, the page shows the
    success line with the title [undefined].  The failure lines of the two
    buttons appear only when the request itself fails. *)
Theorem page_shows_failures_as_answers {E : Externals} :
  forall (body : Body) (w : World) (p : Chatbot.Dom),
    (forall l,
        status (fst (api_chat body w)) <> 200 ->
        Chatbot.chatWindow p = l ++ [say Chatbot.bot Chatbot.placeholder] ->
        Chatbot.chatWindow
          (Chatbot.answered (Chatbot.Resolved (payload (fst (api_chat body w)))) p)
        = l ++ [say Chatbot.bot No_response])
    /\ (status (fst (api_updateEvent body w)) <> 200 ->
        Chatbot.chatWindow
          (Chatbot.updated
             (Chatbot.Resolved (payload (fst (api_updateEvent body w)))) p)
        = Chatbot.chatWindow p
            ++ [say Chatbot.bot (Chatbot.Event_updated ++ lit "undefined")])
    /\ (status (fst (api_createEvent body w)) <> 200 ->
        Chatbot.chatWindow
          (Chatbot.created
             (Chatbot.Resolved (payload (fst (api_createEvent body w)))) p)
        = Chatbot.chatWindow p
            ++ [say Chatbot.bot (Chatbot.Created ++ lit "undefined")])
    /\ Chatbot.chatWindow (Chatbot.updated Chatbot.NetworkError p)
       = Chatbot.chatWindow p ++ [say Chatbot.bot Chatbot.Failed_to_update]
    /\ Chatbot.chatWindow (Chatbot.created Chatbot.NetworkError p)
       = Chatbot.chatWindow p ++ [say Chatbot.bot Chatbot.Failed_to_create].
Proof.
  intros body w p. split; [| split; [| split; [| split]]].
  - intros l Hs Hw.
    destruct (api_chat_answers body w) as [Hf | [[events Hf] | (c & s & Hf)]];
      rewrite Hf in *; try (now contradiction Hs).
    erewrite answered_window; [| reflexivity | exact Hw]. reflexivity.
  - intros Hs.
    destruct (api_updateEvent_answers body w) as [Hf | [event Hf]];
      rewrite Hf in *; [reflexivity | now contradiction Hs].
  - intros Hs.
    destruct (api_createEvent_answers body w) as [Hf | [event Hf]];
      rewrite Hf in *; [reflexivity | now contradiction Hs].
  - reflexivity.
  - reflexivity.
Qed.

Lemma page_shows_failures_as_answers_witness :
  let w := Stub.boot [] in
  let p := {| Chatbot.chatWindow := [say Chatbot.bot Chatbot.placeholder];
              Chatbot.userInput := [] |} in
  Chatbot.chatWindow
    (Chatbot.answered
       (Chatbot.Resolved (payload (fst (api_chat Stub.empty_body w)))) p)
  = [say Chatbot.bot No_response]
  /\ Chatbot.chatWindow
       (Chatbot.updated
          (Chatbot.Resolved (payload (fst (api_updateEvent Stub.empty_body w)))) p)
     = [ say Chatbot.bot Chatbot.placeholder;
         say Chatbot.bot (Chatbot.Event_updated ++ lit "undefined") ].
Proof.
  intros w p.
  destruct (page_shows_failures_as_answers Stub.empty_body w p)
    as (Hchat & Hupdate & _).
  split.
  - apply (Hchat []); [discriminate | reflexivity].
  - apply Hupdate. discriminate.
Defined.

(** X13. The Update button sends nothing when the prompt is dismissed or
    left empty.  Otherwise it posts the event's identifier and the new title
    and no dates: the call it leads to, when there is a credential, is one
    patch whose body holds the title only, and against a calendar whose
    patch keeps the fields its body leaves out, the start and the end of
    every event are after the request what they were before.  The Create
    Event button sends only when all three prompts were answered. *)
Theorem update_button_changes_title_only {E : Externals} :
  patch_leaves_omitted ->
  forall (eventId : jsstring) (answer : option jsstring) (w : World),
    (nonempty answer = false -> Chatbot.update_click eventId answer = None)
    /\ (forall req,
          Chatbot.update_click eventId answer = Some req ->
          req = POST_updateEvent
                  {| body_maxResults := VUndefined;
                     body_eventId := Some eventId;
                     body_summary := answer;
                     body_start := None;
                     body_end := None;
                     body_message := None |}
          /\ trace (snd (app req w))
             = match tokens w with
               | Some t =>
                   [CalPatch t
                      {| pr_calendarId := primary;
                         pr_eventId := Some eventId;
                         pr_requestBody :=
                           {| b_summary := answer; b_start := None;
                              b_end := None |} |}]
               | None => []
               end ++ trace w
          /\ forall i ev,
               stored (remote w) i = Some ev ->
               exists ev',
                 stored (remote (snd (app req w))) i = Some ev'
                 /\ ev_start ev' = ev_start ev
                 /\ ev_end ev' = ev_end ev)
    /\ (forall summary start end_,
          Chatbot.create_click summary start end_ <> None <->
          nonempty summary = true /\ nonempty start = true
          /\ nonempty end_ = true).
Proof.
  intros Hpatch eventId answer w. split; [| split].
  - intros H. unfold Chatbot.update_click. now rewrite H.
  - intros req H. unfold Chatbot.update_click in H.
    destruct (nonempty answer); [| discriminate]. injection H as <-.
    split; [reflexivity |].
    unfold app, sent, api_updateEvent.
    assert (Hsnd : forall m : M Response,
               snd (let '(r, w') := try_catch m
                                      (failure 500 (lit "Failed to update event")) w
                    in (Some r, w'))
               = snd (m w)).
    { intros m. rewrite <- (snd_try_catch m (failure 500 (lit "Failed to update event"))).
      now destruct (try_catch m _ w). }
    rewrite Hsnd, snd_bind_ret. simpl Chatbot.body_of. simpl body_eventId.
    simpl body_summary. simpl body_start. simpl body_end. split.
    + rewrite updateEvent_trace. reflexivity.
    + intros i ev Hev.
      destruct (updateEvent_keeps_omitted_dates (Some eventId) answer None None
                  w i ev Hpatch Hev) as (ev' & Hev' & Hs & He).
      exists ev'. split; [exact Hev' |]. split; [now apply Hs | now apply He].
  - intros summary start end_. unfold Chatbot.create_click.
    destruct (nonempty summary), (nonempty start), (nonempty end_); simpl;
      split; try easy; intros (? & ? & ?); discriminate.
Qed.

Lemma update_button_changes_title_only_witness :
  let w := Stub.signed_in [] in
  match Chatbot.update_click (lit "a") (Some (lit "Daily standup")) with
  | Some req =>
      exists ev',
        stored (remote (snd (app req w))) (lit "a") = Some ev'
        /\ ev_summary ev' = Some (lit "Daily standup")
        /\ ev_start ev' = Stub.at_ 5000
        /\ ev_end ev' = Stub.at_ 3605000
  | None => False
  end.
Proof.
  intros w.
  destruct (Chatbot.update_click (lit "a") (Some (lit "Daily standup")))
    as [req |] eqn:H; [| discriminate].
  destruct (update_button_changes_title_only
              StubLaws.patch_leaves_omitted_kept
              (lit "a") (Some (lit "Daily standup")) w) as (_ & Hsent & _).
  destruct (Hsent req H) as (Hreq & _ & Hframe).
  destruct (Hframe (lit "a") (Stub.event "a" "Standup" 5000 []) eq_refl)
    as (ev' & Hev' & Hs & He).
  exists ev'. split; [exact Hev' |]. split; [| split; [exact Hs | exact He]].
  subst req. vm_compute in Hev'. injection Hev' as <-. reflexivity.
Defined.

(** ** The end-bound calendar keeps the four laws of the list *)

Module EndBoundLaws.

(** What [EndBound.list_events] returns, and where its items come from. *)
Lemma end_listed_inv a r c items :
  @listed EndBound.externals a r c items ->
  exists n l,
    Stub.page_size (lr_maxResults r) = Some n
    /\ items = firstn n l
    /\ (forall x, In x l ->
          In x (Stub.events c) /\ EndBound.unended (lr_timeMin r) x = true
          /\ (lr_singleEvents r = true -> Stub.single x = true))
    /\ (lr_orderBy r = lit "startTime" ->
        StronglySorted (fun x y => time_le (start_of x) (start_of y)) l).
Proof.
  intros (res & c' & H & ->). simpl in H. unfold EndBound.list_events in H.
  destruct (Stub.page_size (lr_maxResults r)) as [n |]; [| discriminate].
  injection H as <- _. simpl. exists n. eexists. split; [reflexivity |].
  split; [reflexivity |]. split.
  - intros x Hx.
    assert (Hin : In x (if lr_singleEvents r
                        then filter Stub.single
                               (filter (EndBound.unended (lr_timeMin r)) (Stub.events c))
                        else filter (EndBound.unended (lr_timeMin r)) (Stub.events c))).
    { destruct (jsstring_eqb (lr_orderBy r) (lit "startTime"));
        [now apply StubLaws.by_start_In | exact Hx]. }
    destruct (lr_singleEvents r).
    + apply filter_In in Hin as [Hin Hs]. apply filter_In in Hin as [Hin Hu].
      auto.
    + apply filter_In in Hin as [Hin Hu]. repeat split; auto. discriminate.
  - intros Ho. rewrite Ho, jsstring_eqb_refl. apply StubLaws.by_start_sorted.
Qed.

Lemma end_maxResults_kept : @list_honours_maxResults EndBound.externals.
Proof.
  intros a r c items n H Hn.
  destruct (end_listed_inv a r c items H) as (k & l & Hk & -> & _).
  rewrite Hn in Hk. simpl in Hk.
  destruct (0 <=? n) eqn:H0; [| discriminate]. injection Hk as <-.
  apply Z.leb_le in H0. pose proof (firstn_le_length (Z.to_nat n) l). lia.
Qed.

Lemma end_timeMin_kept : @list_honours_timeMin EndBound.externals.
Proof.
  intros a r c items H.
  destruct (end_listed_inv a r c items H) as (k & l & _ & -> & Hl & _).
  apply Forall_forall. intros x Hx. apply StubLaws.firstn_In in Hx.
  destruct (Hl x Hx) as (_ & Hu & _). unfold EndBound.unended in Hu.
  destruct (end_of x) as [t |]; [| discriminate].
  exists t. split; [reflexivity |]. now apply Z.ltb_lt.
Qed.

Lemma end_orderBy_kept : @list_honours_orderBy EndBound.externals.
Proof.
  intros a r c items H Ho.
  destruct (end_listed_inv a r c items H) as (k & l & _ & -> & _ & Hs).
  apply StubLaws.firstn_sorted. now apply Hs.
Qed.

Lemma end_singleEvents_kept : @list_honours_singleEvents EndBound.externals.
Proof.
  intros a r c items H Hse.
  destruct (end_listed_inv a r c items H) as (k & l & _ & -> & Hl & _).
  apply Forall_forall. intros x Hx. apply StubLaws.firstn_In in Hx.
  destruct (Hl x Hx) as (_ & _ & Hs). specialize (Hs Hse).
  unfold Stub.single in Hs. now destruct (ev_recurrence x).
Qed.

End EndBoundLaws.

(** ** Listing, against a calendar that honours the request *)

(** C3, as the code has it.  Against a calendar service that honours the
    [maxResults], [timeMin], [orderBy] and [singleEvents] parameters of a
    list request, a list that [listEvents(N)] returns has at most [N]
    events, in ascending order of start time.  It is the image, item by
    item, of what the calendar returned to the one request sent, which asks
    for the events from the time of the call on as single events ordered by
    start; each of these items ends after the time of the call, and none is
    a recurring event itself.  [listEvents()] is [listEvents(5)]. *)
Theorem listEvents_capped_ordered_unended {E : Externals} :
  list_honours_maxResults -> list_honours_timeMin ->
  list_honours_orderBy -> list_honours_singleEvents ->
  forall (w : World) (N : Z) (evs : list EventSummary) (w' : World),
    listEvents (VNum N) w = (inr evs, w') ->
    Z.of_nat (length evs) <= N
    /\ StronglySorted (fun x y => time_le (start x) (start y)) evs
    /\ (exists t items,
          listed t (list_request (clock w) (VNum N)) (remote w) items
          /\ trace w' = CalList t (list_request (clock w) (VNum N)) :: trace w
          /\ evs = map summarize items
          /\ Forall (fun ev => exists e, end_of ev = Some e
                                         /\ clock w < instant e) items
          /\ Forall (fun ev => ev_recurrence ev = []) items)
    /\ list_request (clock w) (VNum N)
       = {| lr_calendarId := lit "primary";
            lr_timeMin := {| text := iso_text (clock w); instant := clock w |};
            lr_maxResults := VNum N;
            lr_singleEvents := true;
            lr_orderBy := lit "startTime" |}
    /\ listEvents VUndefined w = listEvents (VNum 5) w.
Proof.
  intros Hmax Hmin Hord Hsingle w N evs w' H.
  destruct (listEvents_returns w (VNum N) evs w' H)
    as (t & items & Ht & Hl & -> & Htr).
  simpl default_arg in *.
  split; [| split; [| split; [| split]]].
  - rewrite length_map. now apply (Hmax t _ _ items N Hl).
  - apply sorted_map_summarize. now apply (Hord t _ _ items Hl).
  - exists t, items. repeat split; trivial.
    + exact (Hmin t _ _ items Hl).
    + now apply (Hsingle t _ _ items Hl).
  - reflexivity.
  - reflexivity.
Qed.

Lemma listEvents_capped_ordered_unended_witness :
  match listEvents (VNum 3) EndBound.signed_in with
  | (inr evs, _) =>
      map id evs = [Some (lit "c"); Some (lit "b"); Some (lit "d")]
      /\ Z.of_nat (length evs) <= 3
      /\ StronglySorted (fun x y => time_le (start x) (start y)) evs
  | _ => False
  end.
Proof.
  destruct (listEvents (VNum 3) EndBound.signed_in) as [[e | evs] w'] eqn:H.
  - vm_compute in H. discriminate.
  - destruct (listEvents_capped_ordered_unended
                EndBoundLaws.end_maxResults_kept EndBoundLaws.end_timeMin_kept
                EndBoundLaws.end_orderBy_kept EndBoundLaws.end_singleEvents_kept
                EndBound.signed_in 3 evs w' H) as (Hcap & Hord & _).
    repeat split; trivial.
    vm_compute in H. injection H as <- _. reflexivity.
Defined.

(** C3 as stated fails.  At 1000 the event "c", which began at 500 and ends
    at 3600500, is in progress.  The calendar, which keeps the events that
    end after [timeMin], lists it first; its start is before the time of the
    call. *)
Lemma listed_event_in_progress :
  clock EndBound.signed_in = 1000
  /\ match listEvents (VNum 5) EndBound.signed_in with
     | (inr (e :: _), _) =>
         id e = Some (lit "c")
         /\ option_map instant (start e) = Some 500
         /\ ~ (exists t, start e = Some t
                         /\ clock EndBound.signed_in <= instant t)
     | _ => False
     end.
Proof.
  split; [reflexivity |].
  destruct (listEvents (VNum 5) EndBound.signed_in) as [[x | [| e evs]] w'] eqn:H;
    try (vm_compute in H; discriminate).
  vm_compute in H. injection H as <- _ _.
  repeat split; try reflexivity.
  intros (t & Ht & Hle). injection Ht as <-. simpl in Hle. lia.
Qed.

(** ** Failures at the endpoint boundary *)




(** ** Deleting *)

(** C5, as the code has it.  Every fulfilled [deleteEvent] returns the same
    confirmation, [{ success: true, message: "Event deleted successfully" }].
    Against a calendar service that removes what it deletes, rejects the
    delete of an identifier it does not hold, and lists only events it
    holds: after a fulfilled delete the identifier is no longer held, so no
    list taken while that lasts contains it; the delete of an identifier that
    is not held is thrown as a rejected external call, which the endpoint
    answers with its fixed 500; and so a delete repeated right after a
    fulfilled one is rejected, the endpoint answering 200 the first time and
    500 the second. *)
Theorem delete_confirms_once_then_rejects {E : Externals} :
  delete_removes -> delete_rejects_unknown -> list_returns_stored ->
  forall (eventId : jsstring) (w : World),
    (forall r w',
        deleteEvent eventId w = (inr r, w') ->
        r = {| d_success := true; message := lit "Event deleted successfully" |}
        /\ stored (remote w') eventId = None)
    /\ (forall w2 maxResults evs w3,
          stored (remote w2) eventId = None ->
          listEvents maxResults w2 = (inr evs, w3) ->
          ~ In (Some eventId) (map id evs))
    /\ (forall t,
          tokens w = Some t ->
          stored (remote w) eventId = None ->
          exists reason w',
            deleteEvent eventId w = (inl (Rejected reason), w')
            /\ kind_of (Rejected reason) = ExternalServiceFailure
            /\ forall body,
                 body_eventId body = Some eventId -> eventId <> [] ->
                 api_deleteEvent body w
                 = (failure 500 (lit "Failed to delete event"), w'))
    /\ (forall r w',
          deleteEvent eventId w = (inr r, w') ->
          exists reason w'',
            deleteEvent eventId w' = (inl (Rejected reason), w'')
            /\ forall body,
                 body_eventId body = Some eventId -> eventId <> [] ->
                 api_deleteEvent body w
                 = ({| status := 200;
                       payload := DeletedEvent
                                    {| d_success := true;
                                       message := lit "Event deleted successfully" |} |},
                    w')
                 /\ api_deleteEvent body w'
                    = ({| status := 500;
                          payload := ErrorText (lit "Failed to delete event") |},
                       w'')).
Proof.
  intros Hremoves Hrejects Hstored eventId.
  assert (Hfirst : forall w r w',
             deleteEvent eventId w = (inr r, w') ->
             r = {| d_success := true; message := lit "Event deleted successfully" |}
             /\ stored (remote w') eventId = None
             /\ tokens w' = tokens w /\ tokens w <> None).
  { intros w r w' H. destruct (tokens w) as [t |] eqn:Ht.
    2:{ rewrite (deleteEvent_unauthenticated w _ Ht) in H. discriminate. }
    rewrite (deleteEvent_authenticated w _ t Ht) in H. cbv zeta in H.
    destruct (events_delete t _ (remote w)) as [[reason | []] c] eqn:Hd;
      simpl in H; [discriminate |].
    injection H as <- <-. split; [reflexivity |].
    split; [exact (Hremoves t _ _ _ Hd) |]. split; [exact Ht | discriminate]. }
  assert (Hunknown : forall w t,
             tokens w = Some t ->
             stored (remote w) eventId = None ->
             exists reason w',
               deleteEvent eventId w = (inl (Rejected reason), w')).
  { intros w t Ht Hnone.
    destruct (Hrejects t {| dr_calendarId := primary; dr_eventId := eventId |}
                (remote w) Hnone) as [reason Hr].
    pose proof (deleteEvent_authenticated w eventId t Ht) as Hd.
    cbv zeta in Hd. rewrite Hr in Hd. exists reason. eexists. exact Hd. }
  intros w. split; [| split; [| split]].
  - intros r w' H. destruct (Hfirst w r w' H) as (Hr & Hnone & _). now split.
  - intros w2 maxResults evs w3 Hnone Hl Hin.
    destruct (listEvents_returns w2 maxResults evs w3 Hl)
      as (t & items & _ & Hitems & -> & _).
    rewrite map_map in Hin. apply in_map_iff in Hin as (ev & Hid & Hev).
    exact (Hstored t _ _ items ev eventId Hitems Hev Hid Hnone).
  - intros t Ht Hnone.
    destruct (Hunknown w t Ht Hnone) as (reason & w' & Hd).
    exists reason, w'. split; [exact Hd |]. split; [reflexivity |].
    intros body Hid Hne.
    exact (api_deleteEvent_failed body w eventId _ _ Hid Hne Hd).
  - intros r w' H. destruct (Hfirst w r w' H) as (Hr & Hnone & Htok & Hsome).
    destruct (tokens w) as [t |] eqn:Ht; [| now contradiction Hsome].
    destruct (Hunknown w' t Htok Hnone) as (reason & w'' & Hd).
    exists reason, w''. split; [exact Hd |].
    intros body Hid Hne. split.
    + unfold api_deleteEvent, try_catch, bind, ret. rewrite Hid.
      destruct eventId as [| c i]; [contradiction |]. now rewrite H, Hr.
    + exact (api_deleteEvent_failed body w' eventId _ _ Hid Hne Hd).
Qed.

Lemma delete_confirms_once_then_rejects_witness :
  let w := Stub.signed_in [] in
  match listEvents VUndefined w, deleteEvent (lit "b") w with
  | (inr before, _), (inr r, w') =>
      map id before = [Some (lit "b"); Some (lit "d"); Some (lit "a")]
      /\ message r = lit "Event deleted successfully"
      /\ match listEvents VUndefined w' with
         | (inr after, _) =>
             ~ In (Some (lit "b")) (map id after)
             /\ map id after = [Some (lit "d"); Some (lit "a")]
         | _ => False
         end
      /\ fst (deleteEvent (lit "b") w') = inl (Rejected (lit "Not Found"))
  | _, _ => False
  end.
Proof.
  intros w.
  pose proof (delete_confirms_once_then_rejects
                StubLaws.delete_removes_kept StubLaws.delete_rejects_unknown_kept
                StubLaws.stored_listed (lit "b")) as T.
  destruct (listEvents VUndefined w) as [[e | before] w0] eqn:Hb;
    [vm_compute in Hb; discriminate |].
  destruct (deleteEvent (lit "b") w) as [[e | r] w'] eqn:Hd;
    [vm_compute in Hd; discriminate |].
  destruct (T w) as (Hconfirm & Hgone & _ & Hagain).
  destruct (Hconfirm r w' Hd) as [Hr Hnone].
  split; [vm_compute in Hb; injection Hb as <- _; reflexivity |].
  split; [rewrite Hr; reflexivity |].
  split.
  - destruct (listEvents VUndefined w') as [[e | after] w3] eqn:Ha.
    + vm_compute in Hd. injection Hd as _ <-. vm_compute in Ha. discriminate.
    + split; [exact (Hgone w' VUndefined after w3 Hnone Ha) |].
      vm_compute in Hd. injection Hd as _ <-.
      vm_compute in Ha. injection Ha as <- _. reflexivity.
  - destruct (Hagain r w' Hd) as (reason & w3 & Hrej & _).
    vm_compute in Hd. injection Hd as _ <-.
    rewrite Hrej in *. vm_compute in Hrej. injection Hrej as <- _.
    reflexivity.
Defined.

(** C5 as stated fails.  The same delete request sent twice is answered 200
    with the confirmation, then 500 "Failed to delete event": the second
    call does not report what the first reported. *)
Lemma delete_twice_differs :
  let w := Stub.signed_in [] in
  let body := Stub.body VUndefined (Some (lit "b")) None None None None in
  fst (api_deleteEvent body w)
  = {| status := 200;
       payload := DeletedEvent
                    {| d_success := true;
                       message := lit "Event deleted successfully" |} |}
  /\ fst (api_deleteEvent body (snd (api_deleteEvent body w)))
     = {| status := 500; payload := ErrorText (lit "Failed to delete event") |}
  /\ fst (api_deleteEvent body (snd (api_deleteEvent body w)))
     <> fst (api_deleteEvent body w).
Proof.
  intros w body.
  assert (H1 : fst (api_deleteEvent body w)
               = {| status := 200;
                    payload := DeletedEvent
                                 {| d_success := true;
                                    message := lit "Event deleted successfully" |} |})
    by (vm_compute; reflexivity).
  assert (H2 : fst (api_deleteEvent body (snd (api_deleteEvent body w)))
               = {| status := 500;
                    payload := ErrorText (lit "Failed to delete event") |})
    by (vm_compute; reflexivity).
  split; [exact H1 |]. split; [exact H2 |]. rewrite H1, H2. discriminate.
Qed.

(** ** The tool-invocation server *)

(** C9, as the code has it.  The server of [src/index.ts] registers one tool
    and no other.  Its name is [listEvents]; its input has the single field
    [maxResults], a number that may be left out and then counts as 5.  A call
    of that tool arriving on the transport, with a credential stored, invokes
    [events.list] once and answers with what the calendar returned: the
    lines "summary - start" of the listed events, or "No upcoming events
    found." when there is none, or the reason of a rejection as an error.  A
    call of any other name finds no tool.  The server that the full program
    constructs and connects has no tool at all: every call to it finds no
    tool and leaves the world as it is. *)
Theorem index_mcp_lists_other_mcp_is_empty {E : Externals} :
  Index.registeredTools Index.mcp = [Index.listEvents_tool]
  /\ Index.tool_name Index.listEvents_tool = lit "listEvents"
  /\ Index.inputSchema Index.listEvents_tool
     = (lit "maxResults", Index.z_number_optional_default 5)
  /\ Index.parse (snd (Index.inputSchema Index.listEvents_tool)) VUndefined
     = Some (VNum 5)
  /\ (forall n, Index.parse (snd (Index.inputSchema Index.listEvents_tool)) (VNum n)
                = Some (VNum n))
  /\ (forall maxResults v w t,
        Index.parse (snd (Index.inputSchema Index.listEvents_tool)) maxResults
        = Some v ->
        tokens w = Some t ->
        trace (snd (Index.callTool Index.mcp (lit "listEvents") maxResults w))
        = CalList t (list_request (clock w) (or_else v (VNum 5))) :: trace w
        /\ (forall items c,
              events_list t (list_request (clock w) (or_else v (VNum 5))) (remote w)
              = (inr items, c) ->
              fst (Index.callTool Index.mcp (lit "listEvents") maxResults w)
              = Some {| Index.content_text :=
                          match items_or_empty items with
                          | [] => lit "No upcoming events found."
                          | _ :: _ =>
                              Index.join [10%N]
                                (map Index.event_line (items_or_empty items))
                          end;
                        Index.isError := false |}
              /\ remote (snd (Index.callTool Index.mcp (lit "listEvents")
                                maxResults w)) = c)
        /\ (forall reason c,
              events_list t (list_request (clock w) (or_else v (VNum 5))) (remote w)
              = (inl reason, c) ->
              fst (Index.callTool Index.mcp (lit "listEvents") maxResults w)
              = Some {| Index.content_text :=
                          lit "Error fetching events: " ++ reason;
                        Index.isError := true |}))
  /\ (forall name maxResults w,
        name <> lit "listEvents" ->
        Index.callTool Index.mcp name maxResults w = (None, w))
  /\ Index.registeredTools mcp_without_tools = []
  /\ (forall name maxResults w,
        Index.callTool mcp_without_tools name maxResults w = (None, w)).
Proof.
  split; [reflexivity |]. split; [reflexivity |]. split; [reflexivity |].
  split; [reflexivity |]. split; [reflexivity |].
  split; [| split; [| split; [reflexivity | reflexivity]]].
  - intros maxResults v w t Hp Ht.
    assert (Hcall : Index.callTool Index.mcp (lit "listEvents") maxResults w
                    = let '(r, w') := Index.listEvents_handler v w in (Some r, w'))
      by exact (callTool_listEvents maxResults v w Hp).
    split; [| split].
    + rewrite Hcall.
      pose proof (listEvents_handler_calls v w t Ht) as Hc.
      now destruct (Index.listEvents_handler v w).
    + intros items c Hl. rewrite Hcall. unfold Index.listEvents_handler.
      rewrite Ht, list_upcoming_calls. cbv zeta. rewrite Hl. simpl.
      split; [| reflexivity]. now destruct (items_or_empty items).
    + intros reason c Hl. rewrite Hcall. unfold Index.listEvents_handler.
      rewrite Ht, list_upcoming_calls. cbv zeta. rewrite Hl. reflexivity.
  - intros name maxResults w Hne. unfold Index.callTool. simpl find.
    destruct (jsstring_eqb (lit "listEvents") name) eqn:Heq; [| reflexivity].
    apply jsstring_eqb_eq in Heq. congruence.
Qed.

Lemma index_mcp_lists_other_mcp_is_empty_witness :
  let w := Stub.signed_in [] in
  fst (Index.callTool Index.mcp (lit "listEvents") VUndefined w)
  = Some {| Index.content_text :=
              lit "Review - 3000" ++ [10%N] ++ lit "Lunch - 4000" ++ [10%N]
                ++ lit "Standup - 5000";
            Index.isError := false |}
  /\ trace (snd (Index.callTool Index.mcp (lit "listEvents") VUndefined w))
     = [CalList Stub.credential (@list_request Stub.externals 1000 (VNum 5))].
Proof.
  intros w.
  destruct (@index_mcp_lists_other_mcp_is_empty Stub.externals)
    as (_ & _ & _ & _ & _ & Hcall & _).
  destruct (Hcall VUndefined (VNum 5) w Stub.credential eq_refl eq_refl)
    as (Htrace & Hlisted & _).
  split; [| exact Htrace].
  destruct (Hlisted _ _ eq_refl) as [Hanswer _].
  rewrite Hanswer. reflexivity.
Defined.

(** C9 as stated fails on the full server, which the claim cites: its
    [McpServer] has no tool, so a call of [listEvents] on it finds nothing
    and the calendar is not asked. *)
Lemma full_server_mcp_cannot_list :
  Index.registeredTools (@mcp_without_tools Stub.externals) = []
  /\ Index.callTool (@mcp_without_tools Stub.externals) (lit "listEvents")
       VUndefined (Stub.signed_in [])
     = (None, Stub.signed_in [])
  /\ trace (snd (Index.callTool (@mcp_without_tools Stub.externals)
                   (lit "listEvents") VUndefined (Stub.signed_in [])))
     = [].
Proof. repeat split. Qed.

(** ** The cap at the two list interfaces *)

(** C10, as the code has it.  At the HTTP endpoint and at the tool, the cap
    handed to [events.list] is [maxResults || 5].  At the HTTP endpoint
    [maxResults] is any JSON value: a falsy one (a missing field, 0, null,
    false, the empty string) becomes 5, a truthy one is handed on as it is,
    a number n as n and a non-empty string, also the string "0", as that
    string.  At the tool the schema admits a missing field or a number and
    refuses a string, so the cap is always a number other than 0: 5 for a
    missing field or 0, n for any other number n. *)
Theorem maxResults_or_default {E : Externals} :
  forall (body : Body) (w : World) (t : Tokens),
    tokens w = Some t ->
    (trace (snd (api_listEvents body w))
     = CalList t (list_request (clock w) (or_else (body_maxResults body) (VNum 5)))
         :: trace w
     /\ (truthy (body_maxResults body) = false ->
         or_else (body_maxResults body) (VNum 5) = VNum 5)
     /\ (truthy (body_maxResults body) = true ->
         or_else (body_maxResults body) (VNum 5) = body_maxResults body)
     /\ (forall n,
           body_maxResults body = VNum n ->
           or_else (body_maxResults body) (VNum 5)
           = VNum (if n =? 0 then 5 else n))
     /\ (forall s,
           s <> [] -> body_maxResults body = VStr s ->
           or_else (body_maxResults body) (VNum 5) = VStr s))
    /\ (forall maxResults v,
          Index.parse (Index.z_number_optional_default 5) maxResults = Some v ->
          trace (snd (Index.callTool Index.mcp (lit "listEvents") maxResults w))
          = CalList t (list_request (clock w) (or_else v (VNum 5))) :: trace w
          /\ (truthy maxResults = false -> or_else v (VNum 5) = VNum 5)
          /\ (truthy maxResults = true -> or_else v (VNum 5) = maxResults)
          /\ exists n, or_else v (VNum 5) = VNum n /\ n <> 0)
    /\ (forall s,
          Index.parse (Index.z_number_optional_default 5) (VStr s) = None
          /\ Index.callTool Index.mcp (lit "listEvents") (VStr s) w = (None, w)).
Proof.
  intros body w t Ht. split; [| split].
  - split; [exact (api_listEvents_calls body w t Ht) |].
    destruct (or_else_5 (body_maxResults body)) as (Hf & Hy & _).
    split; [exact Hf |]. split; [exact Hy |]. split.
    + intros n ->. unfold or_else. simpl. now destruct (n =? 0).
    + intros s Hs ->. unfold or_else. simpl. now destruct s.
  - intros maxResults v Hp. split.
    + rewrite (callTool_listEvents maxResults v w Hp).
      pose proof (listEvents_handler_calls v w t Ht) as Hc.
      now destruct (Index.listEvents_handler v w).
    + destruct (or_else_5 v) as (Hf & Hy & _).
      destruct maxResults; try discriminate; injection Hp as <-.
      * split; [trivial |]. split; [discriminate |]. now exists 5.
      * split; [exact Hf |]. split; [exact Hy |].
        unfold or_else. simpl. destruct (n =? 0) eqn:Hn; simpl.
        -- now exists 5.
        -- exists n. split; [reflexivity |]. now apply Z.eqb_neq.
  - intros s. split; [reflexivity |]. unfold Index.callTool.
    replace (find _ (Index.registeredTools Index.mcp))
      with (Some Index.listEvents_tool) by reflexivity.
    reflexivity.
Qed.

Lemma maxResults_or_default_witness :
  let w := Stub.signed_in [] in
  trace (snd (api_listEvents (Stub.body (VNum 0) None None None None None) w))
  = [CalList Stub.credential (@list_request Stub.externals 1000 (VNum 5))]
  /\ trace (snd (api_listEvents
                   (Stub.body (VStr (lit "0")) None None None None None) w))
     = [CalList Stub.credential
          (@list_request Stub.externals 1000 (VStr (lit "0")))]
  /\ trace (snd (Index.callTool Index.mcp (lit "listEvents") (VNum 0) w))
     = [CalList Stub.credential (@list_request Stub.externals 1000 (VNum 5))]
  /\ Index.callTool Index.mcp (lit "listEvents") (VStr (lit "0")) w = (None, w).
Proof.
  intros w.
  destruct (maxResults_or_default
              (Stub.body (VNum 0) None None None None None) w
              Stub.credential eq_refl) as ((Hhttp & _) & Htool & Hrefused).
  destruct (maxResults_or_default
              (Stub.body (VStr (lit "0")) None None None None None) w
              Stub.credential eq_refl) as ((Hstring & _) & _).
  destruct (Htool (VNum 0) (VNum 0) eq_refl) as (Hcall & _).
  split; [exact Hhttp |]. split; [exact Hstring |]. split; [exact Hcall |].
  exact (proj2 (Hrefused (lit "0"))).
Defined.

(** ** The endpoints and the calendar client *)

(** [updateEvent] without an [eventId], for a client that refuses such a
    patch: it throws, and the calendar is as before. *)
Lemma updateEvent_without_eventId {E : Externals} :
  patch_requires_eventId ->
  forall summary start end_ w,
  exists e w',
    updateEvent None summary start end_ w = (inl e, w')
    /\ remote w' = remote w.
Proof.
  intros Hlaw summary start end_ w.
  destruct (tokens w) as [t |] eqn:Ht.
  2:{ rewrite (updateEvent_unauthenticated w _ _ _ _ Ht). now eexists _, _. }
  destruct (usable start) eqn:Hs; [destruct (usable end_) eqn:He |].
  - rewrite (updateEvent_authenticated w None summary start end_ t Ht Hs He).
    cbv zeta.
    destruct (Hlaw t (patch_request None summary start end_) (remote w) eq_refl)
      as [reason Hr].
    rewrite Hr. simpl. now eexists _, _.
  - unfold updateEvent, bind, require_tokens, ret. rewrite Ht. simpl.
    rewrite (optional_time_usable _ _ Hs), (optional_time_unusable _ _ He).
    now eexists _, _.
  - unfold updateEvent, bind, require_tokens, ret. rewrite Ht. simpl.
    rewrite (optional_time_unusable _ _ Hs). now eexists _, _.
Qed.

Lemma stub_patch_requires_eventId : @patch_requires_eventId Stub.externals.
Proof.
  intros a r c Hid. exists (lit "Missing required parameters: eventId").
  simpl. unfold Stub.patch_event. now rewrite Hid.
Qed.

Lemma stub_getToken_requires_code : @getToken_requires_code Stub.externals.
Proof. intros []. now exists (lit "invalid_grant"). Qed.

(** X5. A JSON endpoint of the full server (and of the earlier one, whose
    first three endpoints read the same) invokes at most one method of the
    calendar client, always its own, and invokes it exactly when there is a
    credential and its input is usable: [listEvents] always invokes
    [events.list]; [createEvent] invokes [events.insert] when both dates are
    valid; [updateEvent], given an [eventId], invokes [events.patch] when
    each date is left out or valid; [deleteEvent] invokes [events.delete]
    when [eventId] is present and not empty.  An update without [eventId],
    which the calendar client refuses before it sends anything, is answered
    500 "Failed to update event" and leaves the calendar as it is. *)
Theorem endpoints_invoke_their_own_method {E : Externals} :
  patch_requires_eventId ->
  forall (body : Body) (w : World),
    trace (snd (api_listEvents body w))
    = match tokens w with
      | Some t =>
          [CalList t (list_request (clock w)
                        (or_else (body_maxResults body) (VNum 5)))]
      | None => []
      end ++ trace w
    /\ trace (snd (api_createEvent body w))
       = match tokens w, new_Date_of (body_start body), new_Date_of (body_end body) with
         | Some t, Some s, Some e =>
             [CalInsert t (insert_request (body_summary body) s e)]
         | _, _, _ => []
         end ++ trace w
    /\ (forall eventId,
          body_eventId body = Some eventId ->
          trace (snd (api_updateEvent body w))
          = match tokens w with
            | Some t =>
                if usable (body_start body) && usable (body_end body)
                then [CalPatch t (patch_request (Some eventId) (body_summary body)
                                    (body_start body) (body_end body))]
                else []
            | None => []
            end ++ trace w)
    /\ (body_eventId body = None ->
        fst (api_updateEvent body w)
        = {| status := 500; payload := ErrorText (lit "Failed to update event") |}
        /\ remote (snd (api_updateEvent body w)) = remote w)
    /\ trace (snd (api_deleteEvent body w))
       = match tokens w, body_eventId body with
         | Some t, Some (c :: eventId) =>
             [CalDelete t {| dr_calendarId := primary; dr_eventId := c :: eventId |}]
         | _, _ => []
         end ++ trace w.
Proof.
  intros Hlaw body w. split; [| split; [| split; [| split]]].
  - unfold api_listEvents. rewrite snd_try_catch, snd_bind_ret, listEvents_trace.
    now rewrite default_after_or_else.
  - unfold api_createEvent. now rewrite snd_try_catch, snd_bind_ret, createEvent_trace.
  - intros eventId Hid. unfold api_updateEvent.
    now rewrite snd_try_catch, snd_bind_ret, updateEvent_trace, Hid.
  - intros Hid.
    destruct (updateEvent_without_eventId Hlaw (body_summary body)
                (body_start body) (body_end body) w) as (e & w' & Hu & Hr).
    unfold api_updateEvent, try_catch, bind. rewrite Hid, Hu. now split.
  - unfold api_deleteEvent. rewrite snd_try_catch.
    destruct (body_eventId body) as [[| c i] |].
    + now destruct (tokens w).
    + now rewrite snd_bind_ret, deleteEvent_trace.
    + now destruct (tokens w).
Qed.

Lemma endpoints_invoke_their_own_method_witness :
  let w := Stub.signed_in [] in
  let named := Stub.body VUndefined (Some (lit "b")) (Some (lit "Retro")) None None None in
  let unnamed := Stub.body VUndefined None (Some (lit "Retro")) None None None in
  trace (snd (api_updateEvent named w))
  = [CalPatch Stub.credential
       (@patch_request Stub.externals (Some (lit "b")) (Some (lit "Retro")) None None)]
  /\ fst (api_updateEvent unnamed w) = failure 500 (lit "Failed to update event")
  /\ remote (snd (api_updateEvent unnamed w)) = remote w
  /\ trace (snd (api_deleteEvent named w))
     = [CalDelete Stub.credential
          {| dr_calendarId := lit "primary"; dr_eventId := lit "b" |}]
  /\ trace (snd (api_deleteEvent unnamed w)) = [].
Proof.
  intros w named unnamed.
  destruct (endpoints_invoke_their_own_method stub_patch_requires_eventId named w)
    as (_ & _ & Hpatch & _ & Hdelete).
  destruct (endpoints_invoke_their_own_method stub_patch_requires_eventId unnamed w)
    as (_ & _ & _ & Hrefused & Hnone).
  split; [exact (Hpatch (lit "b") eq_refl) |].
  split; [exact (proj1 (Hrefused eq_refl)) |].
  split; [exact (proj2 (Hrefused eq_refl)) |].
  split; [exact Hdelete | exact Hnone].
Defined.

(** ** The two OAuth callbacks *)

(** X9. The callback of [src/index.ts] answers 400 and leaves the world as
    it is when the code is missing or empty; it answers 500 and leaves the
    credential slot as it is when the exchange is rejected; it answers 200
    and stores the credential when the exchange is fulfilled.  The callback
    of the full server has no such guard and catches nothing: a rejection is
    answered 500 by the error handler of Express, with the credential slot as
    it is; so a request without a code, which the OAuth client refuses
    before it sends anything, is answered 500 and not 400, and the identity
    provider is as before. *)
Theorem callbacks_on_rejection {E : Externals} :
  getToken_requires_code ->
  forall (code : option jsstring) (w : World),
    (nonempty code = false ->
     IndexAuth.oauth2callback code w
     = ({| status := 400; payload := Page (lit "No authorization code received") |},
        w))
    /\ (forall reason p,
          nonempty code = true ->
          getToken code (provider w) = (inl reason, p) ->
          status (fst (IndexAuth.oauth2callback code w)) = 500
          /\ tokens (snd (IndexAuth.oauth2callback code w)) = tokens w
          /\ credentials (snd (IndexAuth.oauth2callback code w)) = credentials w)
    /\ (forall t p,
          nonempty code = true ->
          getToken code (provider w) = (inr t, p) ->
          status (fst (IndexAuth.oauth2callback code w)) = 200
          /\ tokens (snd (IndexAuth.oauth2callback code w)) = Some t
          /\ credentials (snd (IndexAuth.oauth2callback code w)) = Some t)
    /\ (forall reason p,
          getToken code (provider w) = (inl reason, p) ->
          (exists r, fst (oauth2callback code w) = Some r /\ status r = 500)
          /\ tokens (snd (oauth2callback code w)) = tokens w
          /\ credentials (snd (oauth2callback code w)) = credentials w)
    /\ (code = None ->
        (exists r, fst (oauth2callback code w) = Some r /\ status r = 500)
        /\ tokens (snd (oauth2callback code w)) = tokens w
        /\ credentials (snd (oauth2callback code w)) = credentials w
        /\ provider (snd (oauth2callback code w)) = provider w).
Proof.
  intros Hlaw code w. split; [| split; [| split; [| split]]].
  - intros H. unfold IndexAuth.oauth2callback. now rewrite H.
  - intros reason p H Hg. unfold IndexAuth.oauth2callback. rewrite H, Hg.
    now repeat split.
  - intros t p H Hg. unfold IndexAuth.oauth2callback. rewrite H, Hg.
    now repeat split.
  - intros reason p Hg. unfold oauth2callback. rewrite Hg.
    split; [now exists unhandled | now split].
  - intros ->. destruct (Hlaw (provider w)) as [reason Hg].
    unfold oauth2callback. rewrite Hg.
    split; [now exists unhandled | now repeat split].
Qed.

Lemma callbacks_on_rejection_witness :
  let w := Stub.boot [] in
  IndexAuth.oauth2callback None w
  = ({| status := 400; payload := Page (lit "No authorization code received") |}, w)
  /\ (exists r, fst (oauth2callback None w) = Some r /\ status r = 500)
  /\ tokens (snd (oauth2callback None w)) = None
  /\ tokens (snd (IndexAuth.oauth2callback (Some (lit "4/0Ab")) w))
     = Some Stub.credential.
Proof.
  intros w.
  destruct (callbacks_on_rejection stub_getToken_requires_code None w)
    as (Hmissing & _ & _ & _ & Hnone).
  destruct (callbacks_on_rejection stub_getToken_requires_code
              (Some (lit "4/0Ab")) w) as (_ & _ & Hok & _).
  split; [exact (Hmissing eq_refl) |].
  split; [exact (proj1 (Hnone eq_refl)) |].
  split; [exact (proj1 (proj2 (Hnone eq_refl))) |].
  exact (proj1 (proj2 (Hok Stub.credential tt eq_refl eq_refl))).
Defined.
